(** * A shallow embedding of the virtual file system of [VFS.py]

    The Python program keeps a tree of dictionaries per user, a table of
    open files that aliases nodes of that tree, a byte array for the disk
    and an allocation table keyed by bare file names.  The embedding keeps
    that shape: objects live in a store and are referred to by location, the
    methods of [VirtualFileSystem] are computations in a state and exception
    monad, and Python's slicing, dictionaries and UTF-8 encoding are modelled
    with the behaviour the program relies on. *)

From Stdlib Require Import ZArith Lia String Ascii DecimalString.
From stdpp Require Import base tactics option list.

Open Scope Z_scope.

(** ** Python strings and bytes *)

Module Py.

(** A [str] is a sequence of Unicode code points, [bytes] a sequence of
    integers below 256. *)
Definition str := list Z.
Definition bytes := list Z.

(** A literal of the source, character by character. *)
Definition lit (s : string) : str :=
  List.map (fun a => Z.of_N (N_of_ascii a)) (list_ascii_of_string s).

(** [len(x)]. *)
Definition len {A} (l : list A) : Z := Z.of_nat (length l).

(** [str(n)] for an integer [n]. *)
Definition str_of_int (n : Z) : str := lit (NilZero.string_of_int (Z.to_int n)).

(** UTF-8 encoding of one code point; a lone surrogate cannot be encoded
    ([UnicodeEncodeError]). *)
Definition encode_char (c : Z) : option bytes :=
  if c <? 128 then Some [c]
  else if c <? 2048 then
    Some [Z.lor 192 (Z.shiftr c 6); Z.lor 128 (Z.land c 63)]
  else if (55296 <=? c) && (c <=? 57343) then None
  else if c <? 65536 then
    Some [Z.lor 224 (Z.shiftr c 12);
          Z.lor 128 (Z.land (Z.shiftr c 6) 63);
          Z.lor 128 (Z.land c 63)]
  else
    Some [Z.lor 240 (Z.shiftr c 18);
          Z.lor 128 (Z.land (Z.shiftr c 12) 63);
          Z.lor 128 (Z.land (Z.shiftr c 6) 63);
          Z.lor 128 (Z.land c 63)].

(** [s.encode()]. *)
Fixpoint encode (s : str) : option bytes :=
  match s with
  | [] => Some []
  | c :: s' =>
      match encode_char c, encode s' with
      | Some b, Some bs => Some (b ++ bs)
      | _, _ => None
      end
  end.

(** The characters [str.split()] treats as white space. *)
Definition isspace (c : Z) : bool :=
  ((9 <=? c) && (c <=? 13)) || ((28 <=? c) && (c <=? 32))
  || (c =? 133) || (c =? 160) || (c =? 5760)
  || ((8192 <=? c) && (c <=? 8202))
  || (c =? 8232) || (c =? 8233) || (c =? 8239) || (c =? 8287) || (c =? 12288).

(** [s.split()]: the maximal runs of characters that are not white space.
    [cur] is the run being read, most recent character first. *)
Fixpoint split_from (cur : str) (s : str) : list str :=
  match s with
  | [] => match cur with [] => [] | _ => [rev cur] end
  | c :: s' =>
      if isspace c then
        match cur with
        | [] => split_from [] s'
        | _ => rev cur :: split_from [] s'
        end
      else split_from (c :: cur) s'
  end.

Definition split (s : str) : list str := split_from [] s.

(** [sep.join(l)]. *)
Fixpoint join (sep : str) (l : list str) : str :=
  match l with
  | [] => []
  | [x] => x
  | x :: l' => x ++ sep ++ join sep l'
  end.

(** Lower-casing of the letters A to Z.  On text whose other characters
    are not changed by [str.lower()] this is [str.lower()]. *)
Definition ascii_lower (s : str) : str :=
  List.map (fun c => if (65 <=? c) && (c <=? 90) then c + 32 else c) s.

(** *** Slices

    An index of a slice is first brought into [0..len]: a negative index
    counts from the end. *)
Definition clamp (n i : Z) : Z :=
  if i <? 0 then Z.max (i + n) 0 else Z.min i n.

(** [l[i:j]]. *)
Definition slice {A} (l : list A) (i j : Z) : list A :=
  let a := clamp (len l) i in
  let b := clamp (len l) j in
  take (Z.to_nat (b - a)) (drop (Z.to_nat a) l).

(** [l[:j]]. *)
Definition slice_to {A} (l : list A) (j : Z) : list A := slice l 0 j.

(** [l[i:j] = v] on a [bytearray]: the slice is replaced by [v], whatever
    the length of [v]; an empty slice with [j < i] sits at [i]. *)
Definition slice_assign {A} (l : list A) (i j : Z) (v : list A) : list A :=
  let a := clamp (len l) i in
  let b := Z.max a (clamp (len l) j) in
  take (Z.to_nat a) l ++ v ++ drop (Z.to_nat b) l.

(** *** Dictionaries

    A [dict] with [str] keys keeps its keys in insertion order; assigning
    to a key that is present keeps its place. *)
Definition dict (V : Type) := list (str * V).

Fixpoint get {V} (k : str) (d : dict V) : option V :=
  match d with
  | [] => None
  | (k', v) :: d' => if decide (k = k') then Some v else get k d'
  end.

(** [k in d]. *)
Definition mem {V} (k : str) (d : dict V) : bool :=
  match get k d with Some _ => true | None => false end.

(** [d[k] = v]. *)
Fixpoint set {V} (k : str) (v : V) (d : dict V) : dict V :=
  match d with
  | [] => [(k, v)]
  | (k', v') :: d' =>
      if decide (k = k') then (k, v) :: d' else (k', v') :: set k v d'
  end.

(** [del d[k]], used by the program only where [k in d] has been tested.
    A dictionary has one binding per key; the representation is cleared of
    every binding of [k]. *)
Fixpoint del {V} (k : str) (d : dict V) : dict V :=
  match d with
  | [] => []
  | (k', v') :: d' => if decide (k = k') then del k d' else (k', v') :: del k d'
  end.

(** [list(d.keys())]. *)
Definition keys {V} (d : dict V) : list str := List.map fst d.

(** [d.update(e)]. *)
Definition update {V} (d e : dict V) : dict V :=
  fold_left (fun acc kv => set (fst kv) (snd kv) acc) e d.

End Py.

(** ** The file system object *)

Module VFS.
Import Py.

(** Objects of the directory tree live in a store; a location is an index
    into it.  A file node is [{"content": c, "type": "file"}], a directory
    node is [{"type": "dir", "children": {...}}] and its children are
    references to other nodes. *)
Abbreviation loc := nat (only parsing).

Inductive node :=
  | File (content : str)
  | Dir (children : dict loc).

(** An entry of [self.root]. *)
Record account := mkAccount {
  username : str;
  password : str;
  FAT : loc
}.

(** The attributes of [VirtualFileSystem], the object store they point into
    and the lines the methods have printed. *)
Record VirtualFileSystem := mkVFS {
  current_user : option str;
  root : dict account;
  current_dir : option loc;
  open_files : dict loc;
  path : list str;
  disk_space : bytes;
  fat_table : dict (Z * Z);
  next_free_space : Z;
  heap : list node;
  stdout : list str
}.

Definition set_current_user v (s : VirtualFileSystem) :=
  mkVFS v (root s) (current_dir s) (open_files s) (path s) (disk_space s)
        (fat_table s) (next_free_space s) (heap s) (stdout s).
Definition set_root v (s : VirtualFileSystem) :=
  mkVFS (current_user s) v (current_dir s) (open_files s) (path s)
        (disk_space s) (fat_table s) (next_free_space s) (heap s) (stdout s).
Definition set_current_dir v (s : VirtualFileSystem) :=
  mkVFS (current_user s) (root s) v (open_files s) (path s) (disk_space s)
        (fat_table s) (next_free_space s) (heap s) (stdout s).
Definition set_open_files v (s : VirtualFileSystem) :=
  mkVFS (current_user s) (root s) (current_dir s) v (path s) (disk_space s)
        (fat_table s) (next_free_space s) (heap s) (stdout s).
Definition set_path v (s : VirtualFileSystem) :=
  mkVFS (current_user s) (root s) (current_dir s) (open_files s) v
        (disk_space s) (fat_table s) (next_free_space s) (heap s) (stdout s).
Definition set_disk_space v (s : VirtualFileSystem) :=
  mkVFS (current_user s) (root s) (current_dir s) (open_files s) (path s) v
        (fat_table s) (next_free_space s) (heap s) (stdout s).
Definition set_fat_table v (s : VirtualFileSystem) :=
  mkVFS (current_user s) (root s) (current_dir s) (open_files s) (path s)
        (disk_space s) v (next_free_space s) (heap s) (stdout s).
Definition set_next_free_space v (s : VirtualFileSystem) :=
  mkVFS (current_user s) (root s) (current_dir s) (open_files s) (path s)
        (disk_space s) (fat_table s) v (heap s) (stdout s).
Definition set_heap v (s : VirtualFileSystem) :=
  mkVFS (current_user s) (root s) (current_dir s) (open_files s) (path s)
        (disk_space s) (fat_table s) (next_free_space s) v (stdout s).
Definition set_stdout v (s : VirtualFileSystem) :=
  mkVFS (current_user s) (root s) (current_dir s) (open_files s) (path s)
        (disk_space s) (fat_table s) (next_free_space s) (heap s) v.

(** [__init__]: one megabyte of zeroed disk, nobody logged in. *)
Definition DISK_SIZE : Z := 1024 * 1024.

Definition init : VirtualFileSystem :=
  {| current_user := None;
     root := [];
     current_dir := None;
     open_files := [];
     path := [];
     disk_space := replicate (Z.to_nat DISK_SIZE) 0;
     fat_table := [];
     next_free_space := 0;
     heap := [];
     stdout := [] |}.

(** *** Exceptions and the monad of methods

    An exception that nobody catches ends the program: a method either
    returns a value and the next state or raises. *)
Inductive exn :=
  | TypeError
  | KeyError
  | ValueError
  | UnicodeEncodeError
  | RecursionError.

Inductive result (A : Type) :=
  | Ok (a : A)
  | Raise (e : exn).
Arguments Ok {A} a.
Arguments Raise {A} e.

Definition M (A : Type) : Type := VirtualFileSystem -> result (A * VirtualFileSystem).

Definition ret {A} (a : A) : M A := fun s => Ok (a, s).
Definition bind {A B} (m : M A) (k : A -> M B) : M B :=
  fun s => match m s with
           | Ok (a, s') => k a s'
           | Raise e => Raise e
           end.
Definition raise {A} (e : exn) : M A := fun _ => Raise e.
Definition gets {A} (f : VirtualFileSystem -> A) : M A := fun s => Ok (f s, s).
Definition modify (f : VirtualFileSystem -> VirtualFileSystem) : M unit :=
  fun s => Ok (tt, f s).
Definition lift {A} (r : result A) : M A :=
  fun s => match r with Ok a => Ok (a, s) | Raise e => Raise e end.

#[global] Instance M_ret : MRet M := @ret.
#[global] Instance M_bind : MBind M := fun A B k m => bind m k.

(** What a method returns to the dispatcher: a message, or the list of
    names of [dir]. *)
Inductive value :=
  | VStr (s : str)
  | VList (l : list str).

(** [print(line)]. *)
Definition print (line : str) : M unit :=
  modify (fun s => set_stdout (stdout s ++ [line]) s).

(** A new object in the store. *)
Definition alloc (n : node) : M loc :=
  fun s => Ok (length (heap s), set_heap (heap s ++ [n]) s).

(** [n["children"]] for the node at [l]. *)
Definition children_of (l : loc) : M (dict loc) :=
  fun s => match heap s !! l with
           | Some (Dir ch) => Ok (ch, s)
           | _ => Raise KeyError
           end.

(** [n["content"]] for the node at [l]. *)
Definition content_of (l : loc) : M str :=
  fun s => match heap s !! l with
           | Some (File c) => Ok (c, s)
           | _ => Raise KeyError
           end.

(** [n["type"] == "dir"] for the node at [l]. *)
Definition type_is_dir (l : loc) : M bool :=
  fun s => match heap s !! l with
           | Some (Dir _) => Ok (true, s)
           | Some (File _) => Ok (false, s)
           | None => Raise KeyError
           end.

(** Assignment to an item of the node at [l]. *)
Definition store (l : loc) (n : node) : M unit :=
  modify (fun s => set_heap (<[l := n]> (heap s)) s).

(** [self.current_dir], subscripted: [None] is not subscriptable. *)
Definition the_current_dir : M loc :=
  fun s => match current_dir s with
           | Some d => Ok (d, s)
           | None => Raise TypeError
           end.

(** [self.current_dir["children"]], with the directory it belongs to. *)
Definition current_children : M (loc * dict loc) :=
  d ← the_current_dir;
  ch ← children_of d;
  mret (d, ch).

(** [self.root[self.current_user]]. *)
Definition current_account : M account :=
  fun s => match current_user s with
           | Some u => match get u (root s) with
                       | Some a => Ok (a, s)
                       | None => Raise KeyError
                       end
           | None => Raise KeyError
           end.

(** [self.fat_table[filename]]. *)
Definition fat_entry (filename : str) : M (Z * Z) :=
  fun s => match get filename (fat_table s) with
           | Some r => Ok (r, s)
           | None => Raise KeyError
           end.

(** [bytearray(n)]. *)
Definition bytearray (n : Z) : M bytes :=
  if n <? 0 then raise ValueError else ret (replicate (Z.to_nat n) 0).

(** [text.encode()]. *)
Definition encoded (text : str) : M bytes :=
  match encode text with
  | Some b => ret b
  | None => raise UnicodeEncodeError
  end.

(** *** Reports *)

(** [_build_file_paths]: the path of every file below [current_dir], keyed
    by bare file name.  The recursion follows the references of the store;
    [fuel] bounds its depth, and running out of it is [RecursionError]. *)
Fixpoint _build_file_paths (fuel : nat) (h : list node) (current_dir : loc)
    (current_path : str) : result (dict str) :=
  match fuel with
  | O => Raise RecursionError
  | S fuel' =>
      match h !! current_dir with
      | Some (Dir children) =>
          fold_left
            (fun acc (entry : str * loc) =>
               match acc with
               | Raise e => Raise e
               | Ok file_paths =>
                   let name := fst entry in
                   let path := current_path ++ lit "/" ++ name in
                   match h !! snd entry with
                   | Some (File _) => Ok (set name path file_paths)
                   | Some (Dir _) =>
                       match _build_file_paths fuel' h (snd entry) path with
                       | Ok sub => Ok (update file_paths sub)
                       | Raise e => Raise e
                       end
                   | None => Raise KeyError
                   end
               end)
            children (Ok [])
      | _ => Raise KeyError
      end
  end.

(** The three lines [show_fat_table] prints for one entry. *)
Definition fat_lines (file_paths : dict str) (entry : str * (Z * Z)) : list str :=
  let filename := fst entry in
  let path := match get filename file_paths with
              | Some p => p
              | None => lit "Unknown"
              end in
  [ lit "  " ++ filename ++ lit ":";
    lit "    Path: " ++ path;
    lit "    Start - " ++ str_of_int (fst (snd entry))
      ++ lit ", End - " ++ str_of_int (snd (snd entry)) ].

Fixpoint print_all (lines : list str) : M unit :=
  match lines with
  | [] => mret tt
  | l :: ls => print l;; print_all ls
  end.

Definition show_fat_table : M unit :=
  a ← current_account;
  h ← gets heap;
  file_paths ← lift (_build_file_paths (length h) h (FAT a) []);
  print (lit "FAT Table:");;
  fat ← gets fat_table;
  print_all (concat (List.map (fat_lines file_paths) fat)).

(** [sum(len(self.disk_space[start:end]) for start, end in ...)]. *)
Definition used_space (disk : bytes) (fat : dict (Z * Z)) : Z :=
  fold_right (fun entry acc => len (slice disk (fst (snd entry)) (snd (snd entry))) + acc)
             0 fat.

Definition display_disk_usage : M unit :=
  s ← gets id;
  print (lit "Disk usage: " ++ str_of_int (used_space (disk_space s) (fat_table s))
           ++ lit "/" ++ str_of_int (len (disk_space s)) ++ lit " bytes").

(** *** Accounts *)

Definition register (username password : str) : M value :=
  r ← gets root;
  if mem username r then mret (VStr (lit "User already exists."))
  else
    fat ← alloc (Dir []);
    modify (fun s => set_root (set username (mkAccount username password fat) (root s)) s);;
    mret (VStr (lit "User '" ++ username ++ lit "' registered successfully.")).

Definition login (username password : str) : M value :=
  r ← gets root;
  match get username r with
  | Some a =>
      if decide (VFS.password a = password) then
        modify (set_current_user (Some username));;
        modify (set_current_dir (Some (FAT a)));;
        modify (set_path []);;
        mret (VStr (lit "User '" ++ username ++ lit "' logged in successfully."))
      else mret (VStr (lit "Login failed."))
  | None => mret (VStr (lit "Login failed."))
  end.

(** [if self.current_user:] holds for a user whose name is not empty. *)
Definition logout : M value :=
  u ← gets current_user;
  match u with
  | Some (c :: user) =>
      modify (set_current_user None);;
      modify (set_current_dir None);;
      modify (set_path []);;
      mret (VStr (lit "User '" ++ (c :: user) ++ lit "' logged out successfully."))
  | _ => mret (VStr (lit "No user currently logged in."))
  end.

(** *** Files *)

Definition dir : M value :=
  '(_, ch) ← current_children;
  mret (VList (keys ch)).

Definition create (filename : str) : M value :=
  '(d, ch) ← current_children;
  if mem filename ch then mret (VStr (lit "File already exists."))
  else
    f ← alloc (File []);
    store d (Dir (set filename f ch));;
    modify (fun s => set_fat_table
                       (set filename (next_free_space s, next_free_space s) (fat_table s)) s);;
    mret (VStr (lit "File '" ++ filename ++ lit "' created.")).

Definition delete (filename : str) : M value :=
  '(d, ch) ← current_children;
  if mem filename ch then
    store d (Dir (del filename ch));;
    '(file_start, file_end) ← fat_entry filename;
    zeros ← bytearray (file_end - file_start);
    modify (fun s => set_disk_space (slice_assign (disk_space s) file_start file_end zeros) s);;
    modify (set_next_free_space file_start);;
    modify (fun s => set_fat_table (del filename (fat_table s)) s);;
    show_fat_table;;
    mret (VStr (lit "File '" ++ filename ++ lit "' deleted."))
  else mret (VStr (lit "File not found.")).

Definition open (filename : str) : M value :=
  '(_, ch) ← current_children;
  o ← gets open_files;
  match get filename ch with
  | Some f =>
      if mem filename o then mret (VStr (lit "File not found or already opened."))
      else
        modify (fun s => set_open_files (set filename f (open_files s)) s);;
        mret (VStr (lit "File '" ++ filename ++ lit "' opened."))
  | None => mret (VStr (lit "File not found or already opened."))
  end.

Definition close (filename : str) : M value :=
  o ← gets open_files;
  if mem filename o then
    modify (fun s => set_open_files (del filename (open_files s)) s);;
    mret (VStr (lit "File '" ++ filename ++ lit "' closed."))
  else mret (VStr (lit "File not opened.")).

Definition read (filename : str) : M value :=
  o ← gets open_files;
  match get filename o with
  | Some f => c ← content_of f; mret (VStr c)
  | None => mret (VStr (lit "File not opened."))
  end.

Definition write (filename content : str) : M value :=
  o ← gets open_files;
  match get filename o with
  | Some f =>
      '(file_start, file_end) ← fat_entry filename;
      disk ← gets disk_space;
      let new_end := Z.min (file_end + len content) (len disk) in
      data ← encoded (slice_to content (new_end - file_start));
      modify (set_disk_space (slice_assign disk file_start new_end data));;
      old ← content_of f;
      store f (File (old ++ content));;
      modify (fun s => set_fat_table (set filename (file_start, new_end) (fat_table s)) s);;
      modify (set_next_free_space new_end);;
      mret (VStr (lit "Content written to file."))
  | None => mret (VStr (lit "File not opened."))
  end.

(** *** Directories *)

(** The loop of [_update_current_dir]. *)
Fixpoint follow (p : list str) : M unit :=
  match p with
  | [] => mret tt
  | name :: p' =>
      '(_, ch) ← current_children;
      match get name ch with
      | Some c => modify (set_current_dir (Some c));; follow p'
      | None => raise KeyError
      end
  end.

Definition _update_current_dir : M unit :=
  a ← current_account;
  modify (set_current_dir (Some (FAT a)));;
  p ← gets path;
  follow p.

Definition cd (dirname : str) : M value :=
  if decide (dirname = lit "..") then
    p ← gets path;
    match p with
    | [] => mret (VStr (lit "Already at the root directory."))
    | _ =>
        modify (set_path (removelast p));;
        _update_current_dir;;
        mret (VStr (lit "Returned to the parent directory."))
    end
  else
    '(_, ch) ← current_children;
    match get dirname ch with
    | Some c =>
        isdir ← type_is_dir c;
        if isdir : bool then
          modify (fun s => set_path (path s ++ [dirname]) s);;
          _update_current_dir;;
          mret (VStr (lit "Changed directory to '" ++ dirname ++ lit "'."))
        else mret (VStr (lit "Directory not found."))
    | None => mret (VStr (lit "Directory not found."))
    end.

Definition rd (dirname : str) : M value :=
  '(d, ch) ← current_children;
  match get dirname ch with
  | Some c =>
      isdir ← type_is_dir c;
      if isdir : bool then
        store d (Dir (del dirname ch));;
        mret (VStr (lit "Directory '" ++ dirname ++ lit "' deleted."))
      else mret (VStr (lit "Directory not found or is a file."))
  | None => mret (VStr (lit "Directory not found or is a file."))
  end.

Definition md (dirname : str) : M value :=
  '(d, ch) ← current_children;
  if mem dirname ch then mret (VStr (lit "Directory already exists."))
  else
    n ← alloc (Dir []);
    store d (Dir (set dirname n ch));;
    mret (VStr (lit "Directory '" ++ dirname ++ lit "' created.")).

(** *** The dispatcher *)

Section Dispatcher.

(** [str.lower()].  Its table of case mappings is the interpreter's; the
    dispatcher is stated for any such function, and [ascii_lower] is used
    to run it on plain text. *)
Variable lower : str -> str.

(** [cmd == "name"]. *)
Definition eq_lit (cmd : str) (name : string) : bool := bool_decide (cmd = lit name).
Local Notation "cmd == name" := (eq_lit cmd name) (at level 70, no associativity).

Definition process_command (command : str) : M value :=
  let args := split command in
  match args with
  | [] => mret (VStr (lit "No command entered."))
  | arg0 :: _ =>
      let cmd := lower arg0 in
      let n := length args in
      let arg (i : nat) := nth i args [] in
      if cmd == "diskusage" then display_disk_usage;; mret (VStr [])
      else if cmd == "showfat" then show_fat_table;; mret (VStr [])
      else if (cmd == "register") && (n =? 3)%nat then register (arg 1%nat) (arg 2%nat)
      else if (cmd == "login") && (n =? 3)%nat then login (arg 1%nat) (arg 2%nat)
      else if cmd == "logout" then logout
      else if cmd == "dir" then dir
      else if (cmd == "create") && (n =? 2)%nat then create (arg 1%nat)
      else if (cmd == "del") && (n =? 2)%nat then delete (arg 1%nat)
      else if (cmd == "open") && (n =? 2)%nat then open (arg 1%nat)
      else if (cmd == "close") && (n =? 2)%nat then close (arg 1%nat)
      else if (cmd == "read") && (n =? 2)%nat then read (arg 1%nat)
      else if (cmd == "write") && (3 <=? n)%nat then
        write (arg 1%nat) (join (lit " ") (drop 2 args))
      else if (cmd == "cd") && (n =? 2)%nat then cd (arg 1%nat)
      else if (cmd == "md") && (n =? 2)%nat then md (arg 1%nat)
      else if (cmd == "rd") && (n =? 2)%nat then rd (arg 1%nat)
      else mret (VStr (lit "Invalid command or incorrect number of arguments."))
  end.

End Dispatcher.

(** *** Calls and reachable states

    A call of one of the methods the dispatcher can reach. *)
Inductive call :=
  | Register (username password : str)
  | Login (username password : str)
  | Logout
  | DirList
  | Create (filename : str)
  | Delete (filename : str)
  | Open (filename : str)
  | Close (filename : str)
  | Read (filename : str)
  | Write (filename content : str)
  | Cd (dirname : str)
  | Md (dirname : str)
  | Rd (dirname : str)
  | DiskUsage
  | ShowFat.

Definition run (c : call) : M value :=
  match c with
  | Register u p => register u p
  | Login u p => login u p
  | Logout => logout
  | DirList => dir
  | Create f => create f
  | Delete f => delete f
  | Open f => open f
  | Close f => close f
  | Read f => read f
  | Write f c => write f c
  | Cd d => cd d
  | Md d => md d
  | Rd d => rd d
  | DiskUsage => display_disk_usage;; mret (VStr [])
  | ShowFat => show_fat_table;; mret (VStr [])
  end.

(** A session: the calls are made one after the other; the first one that
    raises ends the program. *)
Fixpoint session (cs : list call) (s : VirtualFileSystem) : result VirtualFileSystem :=
  match cs with
  | [] => Ok s
  | c :: cs' =>
      match run c s with
      | Ok (_, s') => session cs' s'
      | Raise e => Raise e
      end
  end.

(** The states the program can be in: the initial one, and those a call
    that returns leads to. *)
Inductive reachable : VirtualFileSystem -> Prop :=
  | reachable_init : reachable init
  | reachable_step s c v s' :
      reachable s -> run c s = Ok (v, s') -> reachable s'.

(** The walk of [_update_current_dir], as a function of the store. *)
Fixpoint walk (h : list node) (l : loc) (p : list str) : option loc :=
  match p with
  | [] => Some l
  | name :: p' =>
      match h !! l with
      | Some (Dir ch) =>
          match get name ch with
          | Some c => walk h c p'
          | None => None
          end
      | _ => None
      end
  end.

(** The state a session from [init] ends in; [init] itself when a call of
    the session raises. *)
Definition state_after (cs : list call) : VirtualFileSystem :=
  match session cs init with
  | Ok s => s
  | Raise _ => init
  end.

(** What the calls of a session return, in order. *)
Fixpoint returns (cs : list call) (s : VirtualFileSystem) : result (list value) :=
  match cs with
  | [] => Ok []
  | c :: cs' =>
      match run c s with
      | Ok (v, s') =>
          match returns cs' s' with
          | Ok vs => Ok (v :: vs)
          | Raise e => Raise e
          end
      | Raise e => Raise e
      end
  end.

(** What the dispatcher answers to the lines typed, in order. *)
Fixpoint responses (lower : str -> str) (lines : list str) (s : VirtualFileSystem)
    : result (list value) :=
  match lines with
  | [] => Ok []
  | line :: lines' =>
      match process_command lower line s with
      | Ok (v, s') =>
          match responses lower lines' s' with
          | Ok vs => Ok (v :: vs)
          | Raise e => Raise e
          end
      | Raise e => Raise e
      end
  end.

(** *** Properties of states *)

(** [x] is a byte of the half-open range [r]. *)
Definition in_range (r : Z * Z) (x : Z) : Prop := fst r <= x < snd r.

(** The invariant the allocation table is meant to have: every range lies
    in the disk, and two files share no byte. *)
Definition fat_ranges_ok (s : VirtualFileSystem) : Prop :=
  (forall f r, get f (fat_table s) = Some r ->
     0 <= fst r /\ fst r <= snd r /\ snd r <= len (disk_space s))
  /\ (forall f g r1 r2 x, f <> g ->
        get f (fat_table s) = Some r1 -> get g (fat_table s) = Some r2 ->
        in_range r1 x -> in_range r2 x -> False).

(** What the allocation table does satisfy: no offset is negative. *)
Definition fat_nonneg (s : VirtualFileSystem) : Prop :=
  0 <= next_free_space s
  /\ forall f r, get f (fat_table s) = Some r -> 0 <= fst r /\ 0 <= snd r.

(** The children of a directory are objects of the store, created after it. *)
Definition heap_wf (h : list node) : Prop :=
  forall l ch name c,
    h !! l = Some (Dir ch) -> get name ch = Some c -> (l < c < length h)%nat.

(** The root of every account is a directory. *)
Definition roots_ok (s : VirtualFileSystem) : Prop :=
  forall u a, get u (root s) = Some a -> exists ch, heap s !! FAT a = Some (Dir ch).

(** The working directory is the directory the path leads to from the root
    of the user who is logged in. *)
Definition session_ok (s : VirtualFileSystem) : Prop :=
  match current_dir s with
  | None => path s = []
  | Some d =>
      exists u a ch,
        current_user s = Some u /\ get u (root s) = Some a
        /\ walk (heap s) (FAT a) (path s) = Some d
        /\ heap s !! d = Some (Dir ch)
  end.

Definition inv (s : VirtualFileSystem) : Prop :=
  heap_wf (heap s) /\ roots_ok s /\ session_ok s.

(** The bytes the allocation table accounts for: the sum of [end - start]. *)
Definition range_sum (fat : dict (Z * Z)) : Z :=
  fold_right (fun entry acc => (snd (snd entry) - fst (snd entry)) + acc) 0 fat.

(** The words the dispatcher knows. *)
Definition command_names : list string :=
  ["diskusage"; "showfat"; "register"; "login"; "logout"; "dir"; "create";
   "del"; "open"; "close"; "read"; "write"; "cd"; "md"; "rd"]%string.


End VFS.

Import Py VFS.

(** ** Sample sessions

    Names and sessions used to run the program on concrete input. *)

Module Sample.
Definition u : str := lit "u".
Definition p : str := lit "p".
Definition a : str := lit "a".
Definition b : str := lit "b".
Definition c : str := lit "c".
Definition d : str := lit "d".
Definition f : str := lit "f".
Definition logged_in : list call := [Register u p; Login u p].
Definition stale : list call :=
  logged_in ++ [Create f; Open f; Write f (lit "old"); Delete f].
Definition reuse : list call :=
  logged_in ++ [Create a; Open a; Write a (lit "hello");
                Create b; Open b; Write b (lit "world");
                Delete a;
                Create c; Open c; Write c (lit "abcdefgh")].
Definition long_text : str := replicate (Z.to_nat 600000) 120.
Definition shrink : list call :=
  logged_in ++ [Create a; Open a; Write a long_text;
                Create b; Open b; Write a (lit "x"); Write b (lit "y")].
Definition accent : list call :=
  logged_in ++ [Create f; Open f; Write f [233]].
Definition hello_file : list call :=
  logged_in ++ [Create f; Open f; Write f (lit "hello")].
End Sample.

(** * Properties *)

(** Unfolding of the monad and of the accessors, and case analysis of a run
    that returned. *)

Ltac unfold_M :=
  cbv beta iota zeta delta
    [mbind mret M_bind M_ret bind ret gets modify raise lift
     current_children the_current_dir children_of content_of type_is_dir
     store alloc current_account fat_entry bytearray encoded print].

Ltac unfold_M_in H :=
  cbv beta iota zeta delta
    [mbind mret M_bind M_ret bind ret gets modify raise lift
     current_children the_current_dir children_of content_of type_is_dir
     store alloc current_account fat_entry bytearray encoded print] in H.

Ltac case_scrutinee H :=
  match type of H with
  | context [match ?x with _ => _ end] =>
      lazymatch x with
      | context [match _ with _ => _ end] => fail
      | _ => destruct x eqn:?
      end
  end.

Ltac simpl_fields :=
  cbn [current_user root current_dir open_files path disk_space fat_table
       next_free_space heap stdout set_current_user set_root set_current_dir
       set_open_files set_path set_disk_space set_fat_table
       set_next_free_space set_heap set_stdout] in *.

Ltac invert_run H :=
  unfold_M_in H; repeat (case_scrutinee H; simplify_eq; try done); simplify_eq;
  simpl_fields.


(** ** Dictionaries, slices and encoding *)

Section DictFacts.
Context {V : Type}.
Implicit Types (k : str) (v : V) (d : dict V).

Lemma get_set_eq k v d : get k (set k v d) = Some v.
Proof.
  induction d as [|[k' v'] d IH]; simpl; repeat (case_decide; simpl); congruence.
Qed.

Lemma get_set_ne k k' v d : k <> k' -> get k' (set k v d) = get k' d.
Proof.
  intros Hne.
  induction d as [|[k0 v0] d IH]; simpl; repeat (case_decide; simpl); congruence.
Qed.

Lemma get_del_eq k d : get k (del k d) = None.
Proof.
  induction d as [|[k' v'] d IH]; simpl; repeat (case_decide; simpl); congruence.
Qed.

Lemma get_del_ne k k' d : k <> k' -> get k' (del k d) = get k' d.
Proof.
  intros Hne.
  induction d as [|[k0 v0] d IH]; simpl; repeat (case_decide; simpl); congruence.
Qed.

Lemma get_del_Some k k' v d : get k' (del k d) = Some v -> get k' d = Some v.
Proof.
  destruct (decide (k = k')) as [->|Hne].
  - by rewrite get_del_eq.
  - by rewrite get_del_ne.
Qed.

Lemma mem_true k d : mem k d = true <-> is_Some (get k d).
Proof. unfold mem. destruct (get k d); split; intros H; try done; by destruct H. Qed.

Lemma mem_false k d : mem k d = false <-> get k d = None.
Proof. unfold mem. by destruct (get k d). Qed.

End DictFacts.

Lemma len_nonneg {A} (l : list A) : 0 <= len l.
Proof. unfold len. lia. Qed.

Lemma len_app {A} (l1 l2 : list A) : len (l1 ++ l2) = len l1 + len l2.
Proof. unfold len. rewrite length_app. lia. Qed.

(** A slice from the start is a prefix. *)
Lemma clamp_0 n : 0 <= n -> clamp n 0 = 0.
Proof. unfold clamp. simpl. lia. Qed.

Lemma clamp_bounds n i : 0 <= n -> 0 <= clamp n i <= n.
Proof. unfold clamp. destruct (Z.ltb_spec i 0); lia. Qed.

Lemma slice_to_take {A} (l : list A) j :
  slice_to l j = take (Z.to_nat (clamp (len l) j)) l.
Proof.
  unfold slice_to, slice. rewrite clamp_0 by apply len_nonneg.
  by rewrite Z.sub_0_r.
Qed.

Lemma slice_to_all {A} (l : list A) : slice_to l (len l) = l.
Proof.
  rewrite slice_to_take. unfold clamp. pose proof (len_nonneg l).
  destruct (Z.ltb_spec (len l) 0); [lia|].
  rewrite Z.min_id. unfold len. rewrite Nat2Z.id. apply firstn_all.
Qed.



(** ** Walking the tree and printing *)

Lemma set_current_dir_id s l : current_dir s = Some l -> set_current_dir (Some l) s = s.
Proof. destruct s; simpl; by intros ->. Qed.

Lemma follow_walk p : forall s l,
  current_dir s = Some l ->
  follow p s = match walk (heap s) l p with
               | Some d => Ok (tt, set_current_dir (Some d) s)
               | None => Raise KeyError
               end.
Proof.
  induction p as [|name p IH]; intros s l Hl; simpl.
  - unfold_M. by rewrite set_current_dir_id.
  - unfold_M. rewrite Hl.
    destruct (heap s !! l) as [[c|ch]|]; try done.
    destruct (get name ch) as [c|]; [|done].
    rewrite (IH _ c) by done. simpl. by destruct (walk (heap s) c p).
Qed.

Lemma update_current_dir_walk s a u :
  current_user s = Some u -> get u (root s) = Some a ->
  _update_current_dir s =
    match walk (heap s) (FAT a) (path s) with
    | Some d => Ok (tt, set_current_dir (Some d) s)
    | None => Raise KeyError
    end.
Proof.
  intros Hu Ha. unfold _update_current_dir. unfold_M. rewrite Hu, Ha.
  rewrite (follow_walk _ _ (FAT a)) by done. simpl.
  destruct (walk (heap s) (FAT a) (path s)); [|done].
  by destruct s.
Qed.

Lemma print_all_ok ls : forall s, print_all ls s = Ok (tt, set_stdout (stdout s ++ ls) s).
Proof.
  induction ls as [|l ls IH]; intros s; simpl.
  - unfold_M. rewrite app_nil_r. by destruct s.
  - unfold_M. rewrite IH. simpl. by rewrite <- app_assoc.
Qed.

Lemma show_fat_table_inv s u s' :
  show_fat_table s = Ok (u, s') -> exists out, s' = set_stdout out s.
Proof.
  unfold show_fat_table. unfold_M. intros H.
  repeat case_match; simplify_eq. rewrite print_all_ok in H. simplify_eq.
  simpl. by eexists.
Qed.

Lemma display_disk_usage_inv s u s' :
  display_disk_usage s = Ok (u, s') -> exists out, s' = set_stdout out s.
Proof.
  unfold display_disk_usage. unfold_M. intros H. simplify_eq. by eexists.
Qed.

(** ** The object store *)

Lemma heap_wf_nil : heap_wf [].
Proof. intros l ch name c H. by rewrite lookup_nil in H. Qed.

Lemma heap_wf_alloc h n :
  heap_wf h -> (forall ch, n = Dir ch -> ch = []) -> heap_wf (h ++ [n]).
Proof.
  intros Hwf Hn l ch name c Hl Hc. rewrite length_app. simpl.
  destruct (decide (l < length h)%nat) as [Hlt|Hge].
  - rewrite lookup_app_l in Hl by done. specialize (Hwf _ _ _ _ Hl Hc). lia.
  - rewrite lookup_app_r in Hl by lia.
    destruct (l - length h)%nat; simpl in Hl; [|by rewrite lookup_nil in Hl].
    simplify_eq. rewrite (Hn ch eq_refl) in Hc. done.
Qed.

Lemma heap_wf_store h l n :
  heap_wf h ->
  (forall ch name c, n = Dir ch -> get name ch = Some c -> (l < c < length h)%nat) ->
  heap_wf (<[l := n]> h).
Proof.
  intros Hwf Hn l' ch name c Hl Hc. rewrite length_insert.
  destruct (decide (l = l')) as [<-|Hne].
  - destruct (decide (l < length h)%nat).
    + rewrite list_lookup_insert_eq in Hl by done. simplify_eq. eauto.
    + rewrite list_insert_ge in Hl by lia. eauto.
  - rewrite list_lookup_insert_ne in Hl by done. eauto.
Qed.

Lemma walk_le h : heap_wf h -> forall p l d, walk h l p = Some d -> (l <= d)%nat.
Proof.
  intros Hwf. induction p as [|name p IH]; intros l d H; simpl in H.
  - simplify_eq. lia.
  - destruct (h !! l) as [[|ch]|] eqn:El; try done.
    destruct (get name ch) as [c|] eqn:Ec; [|done].
    apply IH in H. specialize (Hwf _ _ _ _ El Ec). lia.
Qed.

Lemma walk_preserved h h' :
  heap_wf h -> forall p l d,
  walk h l p = Some d ->
  (forall l' ch, l' <> d -> h !! l' = Some (Dir ch) -> h' !! l' = Some (Dir ch)) ->
  walk h' l p = Some d.
Proof.
  intros Hwf. induction p as [|name p IH]; intros l d H Hsame; simpl in *; [done|].
  destruct (h !! l) as [[|ch]|] eqn:El; try done.
  destruct (get name ch) as [c|] eqn:Ec; [|done].
  pose proof (walk_le _ Hwf _ _ _ H). pose proof (Hwf _ _ _ _ El Ec).
  rewrite (Hsame l ch) by (done || lia). rewrite Ec. eauto.
Qed.

Lemma walk_snoc h p : forall l name,
  walk h l (p ++ [name]) =
    match walk h l p with
    | Some d => walk h d [name]
    | None => None
    end.
Proof.
  induction p as [|x p IH]; intros l name; simpl; [done|].
  destruct (h !! l) as [[|ch]|]; try done.
  destruct (get x ch); [|done]. apply IH.
Qed.

Lemma inv_init : inv init.
Proof.
  split; [apply heap_wf_nil|]. split; [by intros u a H|]. done.
Qed.

Lemma inv_frame s s' :
  inv s ->
  root s' = root s -> current_user s' = current_user s ->
  current_dir s' = current_dir s -> path s' = path s ->
  heap_wf (heap s') ->
  (forall l ch, heap s !! l = Some (Dir ch) -> exists ch', heap s' !! l = Some (Dir ch')) ->
  (forall l ch, current_dir s <> Some l ->
     heap s !! l = Some (Dir ch) -> heap s' !! l = Some (Dir ch)) ->
  inv s'.
Proof.
  intros (Hwf & Hroots & Hsess) Hr Hu Hd Hp Hwf' Hdirs Hsame.
  split; [done|]. split.
  - intros u a Ha. rewrite Hr in Ha. destruct (Hroots _ _ Ha) as [ch Hch]. eauto.
  - unfold session_ok in *. rewrite Hd, Hp, Hu, Hr.
    destruct (current_dir s) as [d|] eqn:Ed; [|done].
    destruct Hsess as (u & a & ch & Hcu & Ha & Hw & Hch).
    destruct (Hdirs _ _ Hch) as [ch' Hch'].
    exists u, a, ch'. repeat split; try done.
    apply (walk_preserved (heap s)); [done..|].
    intros l' ch0 Hne. apply Hsame. congruence.
Qed.

(** Adding a new object to the working directory. *)
Lemma inv_link s s' l ch name n :
  inv s -> current_dir s = Some l -> heap s !! l = Some (Dir ch) ->
  (forall ch', n = Dir ch' -> ch' = []) ->
  root s' = root s -> current_user s' = current_user s ->
  current_dir s' = current_dir s -> path s' = path s ->
  heap s' = <[l := Dir (set name (length (heap s)) ch)]> (heap s ++ [n]) ->
  inv s'.
Proof.
  intros Hinv Hd Hl Hn Hr Hu Hd' Hp Hh. pose proof Hinv as (Hwf & _).
  pose proof (lookup_lt_Some _ _ _ Hl).
  apply (inv_frame s); [done..| | |]; rewrite Hh.
  - apply heap_wf_store; [by apply heap_wf_alloc|].
    intros ch0 x c [= <-] Hc. rewrite length_app. simpl.
    destruct (decide (name = x)) as [->|Hne].
    + rewrite get_set_eq in Hc. simplify_eq. lia.
    + rewrite get_set_ne in Hc by done. specialize (Hwf _ _ _ _ Hl Hc). lia.
  - intros l0 ch0 Hl0. pose proof (lookup_lt_Some _ _ _ Hl0).
    destruct (decide (l = l0)) as [->|Hne].
    + rewrite list_lookup_insert_eq by (rewrite length_app; lia). eauto.
    + rewrite list_lookup_insert_ne, lookup_app_l by done. eauto.
  - intros l0 ch0 Hne Hl0. pose proof (lookup_lt_Some _ _ _ Hl0).
    rewrite list_lookup_insert_ne, lookup_app_l by congruence. done.
Qed.

Lemma inv_create s f v s' : inv s -> create f s = Ok (v, s') -> inv s'.
Proof.
  intros Hinv H. unfold create in H. invert_run H.
  by eapply (inv_link s) with (n := File []).
Qed.

Lemma inv_md s f v s' : inv s -> md f s = Ok (v, s') -> inv s'.
Proof.
  intros Hinv H. unfold md in H. invert_run H.
  eapply (inv_link s) with (n := Dir []); try done. by intros ch' [= <-].
Qed.

(** Removing an entry of the working directory. *)
Lemma inv_unlink s s' l ch name :
  inv s -> current_dir s = Some l -> heap s !! l = Some (Dir ch) ->
  root s' = root s -> current_user s' = current_user s ->
  current_dir s' = current_dir s -> path s' = path s ->
  heap s' = <[l := Dir (del name ch)]> (heap s) ->
  inv s'.
Proof.
  intros Hinv Hd Hl Hr Hu Hd' Hp Hh. pose proof Hinv as (Hwf & _).
  pose proof (lookup_lt_Some _ _ _ Hl).
  apply (inv_frame s); [done..| | |]; rewrite Hh.
  - apply heap_wf_store; [done|]. intros ch0 n c [= <-] Hc.
    apply get_del_Some in Hc. eauto.
  - intros l0 ch0 Hl0. destruct (decide (l = l0)) as [->|Hne].
    + rewrite list_lookup_insert_eq by done. eauto.
    + rewrite list_lookup_insert_ne by done. eauto.
  - intros l0 ch0 Hne Hl0. rewrite list_lookup_insert_ne by congruence. done.
Qed.

Lemma inv_rd s f v s' : inv s -> rd f s = Ok (v, s') -> inv s'.
Proof.
  intros Hinv H. unfold rd in H. invert_run H.
  by eapply (inv_unlink s).
Qed.

Lemma inv_delete s f v s' : inv s -> delete f s = Ok (v, s') -> inv s'.
Proof.
  intros Hinv H. unfold delete in H. invert_run H.
  match goal with H : show_fat_table _ = _ |- _ =>
    apply show_fat_table_inv in H as [out ->] end.
  by eapply (inv_unlink s).
Qed.

Lemma inv_write s f c v s' : inv s -> write f c s = Ok (v, s') -> inv s'.
Proof.
  intros Hinv H. unfold write in H. invert_run H.
  pose proof Hinv as (Hwf & _).
  apply (inv_frame s); [done..| | |]; simpl.
  - apply heap_wf_store; [done|]. by intros.
  - intros l0 ch0 Hl0. rewrite list_lookup_insert_ne by congruence. eauto.
  - intros l0 ch0 _ Hl0. rewrite list_lookup_insert_ne by congruence. done.
Qed.

Lemma inv_set_stdout s out : inv s -> inv (set_stdout out s).
Proof.
  intros Hinv. apply (inv_frame s); simpl; try done; [by destruct Hinv|by eauto].
Qed.

Lemma inv_register s u p v s' : inv s -> register u p s = Ok (v, s') -> inv s'.
Proof.
  intros Hinv H. unfold register in H. invert_run H.
  destruct Hinv as (Hwf & Hroots & Hsess). split; [|split]; simpl.
  - apply heap_wf_alloc; [done|]. by intros ch [= <-].
  - unfold roots_ok; simpl. intros u' a. destruct (decide (u = u')) as [->|Hne].
    + rewrite get_set_eq. intros [= <-]. simpl. rewrite lookup_app_r by lia.
      rewrite Nat.sub_diag. by eexists.
    + rewrite get_set_ne by done. intros Ha. destruct (Hroots _ _ Ha) as [ch Hch].
      exists ch. by apply lookup_app_l_Some.
  - unfold session_ok in *; simpl. destruct (current_dir s) as [d|]; [|done].
    destruct Hsess as (u' & a & ch & Hu & Ha & Hw & Hch).
    exists u', a, ch. repeat split; try done.
    + rewrite get_set_ne; [done|]. intros ->. apply mem_false in Heqb. congruence.
    + apply (walk_preserved (heap s)); [done..|].
      intros l' ch' _ Hl'. by apply lookup_app_l_Some.
    + by apply lookup_app_l_Some.
Qed.

Lemma inv_login s u p v s' : inv s -> login u p s = Ok (v, s') -> inv s'.
Proof.
  intros Hinv H. unfold login in H. invert_run H.
  destruct Hinv as (Hwf & Hroots & Hsess). split; [|split]; try done.
  unfold session_ok; simpl. destruct (Hroots _ _ Heqo) as [ch Hch].
  by exists u, a, ch.
Qed.

Lemma inv_logout s v s' : inv s -> logout s = Ok (v, s') -> inv s'.
Proof.
  intros Hinv H. unfold logout in H. invert_run H.
  destruct Hinv as (Hwf & Hroots & Hsess). split; [|split]; done.
Qed.

(** What [cd] does in a state that satisfies the invariant. *)
Lemma cd_parent_ok s :
  inv s -> path s <> [] ->
  exists u a d ch,
    current_user s = Some u /\ get u (root s) = Some a
    /\ walk (heap s) (FAT a) (removelast (path s)) = Some d
    /\ heap s !! d = Some (Dir ch)
    /\ cd (lit "..") s =
         Ok (VStr (lit "Returned to the parent directory."),
             set_current_dir (Some d) (set_path (removelast (path s)) s)).
Proof.
  intros (Hwf & Hroots & Hsess) Hp. unfold session_ok in Hsess.
  destruct (current_dir s) as [d0|] eqn:Ed; [|done].
  destruct Hsess as (u & a & ch0 & Hu & Ha & Hw & Hch0).
  destruct (exists_last Hp) as (p & x & Epx).
  rewrite Epx, removelast_last. rewrite Epx, walk_snoc in Hw.
  destruct (walk (heap s) (FAT a) p) as [d|] eqn:Ew; [|done].
  simpl in Hw. destruct (heap s !! d) as [[|ch]|] eqn:Ed'; try done.
  exists u, a, d, ch. repeat split; try done.
  unfold cd. rewrite decide_True by done. unfold_M. rewrite Epx.
  destruct (p ++ [x]) eqn:E; [by destruct p|]. rewrite <- E, removelast_last.
  rewrite (update_current_dir_walk _ a u) by done. simpl. by rewrite Ew.
Qed.

Lemma cd_child_inv s name v s' :
  inv s -> name <> lit ".." -> cd name s = Ok (v, s') ->
  s' = s \/
  exists d ch, heap s !! d = Some (Dir ch)
    /\ s' = set_current_dir (Some d) (set_path (path s ++ [name]) s)
    /\ exists u a, current_user s = Some u /\ get u (root s) = Some a
          /\ walk (heap s) (FAT a) (path s ++ [name]) = Some d.
Proof.
  intros (Hwf & Hroots & Hsess) Hne H. unfold cd in H.
  rewrite decide_False in H by done. unfold_M_in H.
  unfold session_ok in Hsess.
  destruct (current_dir s) as [d0|] eqn:Ed; [|done].
  destruct Hsess as (usr & a & ch & Hu & Ha & Hw & Hch). rewrite Hch in H.
  destruct (get name ch) as [c|] eqn:Ec; [|left; by simplify_eq].
  destruct (heap s !! c) as [[|chc]|] eqn:Ecc; try done; [left; by simplify_eq|].
  right. rewrite (update_current_dir_walk _ a usr) in H by done.
  assert (walk (heap s) (FAT a) (path s ++ [name]) = Some c) as Hw'.
  { rewrite walk_snoc, Hw. simpl. by rewrite Hch, Ec. }
  simpl_fields. rewrite Hw' in H. simplify_eq.
  exists c, chc. repeat split; try done. by exists usr, a.
Qed.

Lemma inv_cd s d v s' : inv s -> cd d s = Ok (v, s') -> inv s'.
Proof.
  intros Hinv H. destruct (decide (d = lit "..")) as [->|Hne].
  - destruct (path s) as [|x p] eqn:Ep.
    + unfold cd in H. rewrite decide_True in H by done. unfold_M_in H.
      rewrite Ep in H. by simplify_eq.
    + destruct (cd_parent_ok s Hinv) as (u & a & d & ch & Hu & Ha & Hw & Hd & Hcd);
        [by rewrite Ep|].
      rewrite Hcd in H. simplify_eq. destruct Hinv as (Hwf & Hroots & Hsess).
      split; [|split]; try done. unfold session_ok; simpl.
      by exists u, a, ch.
  - destruct (cd_child_inv _ _ _ _ Hinv Hne H)
      as [->|(d' & ch & Hd & -> & u & a & Hu & Ha & Hw)]; [done|].
    destruct Hinv as (Hwf & Hroots & Hsess).
    split; [|split]; try done. unfold session_ok; simpl.
    by exists u, a, ch.
Qed.

Lemma inv_step s c v s' : inv s -> run c s = Ok (v, s') -> inv s'.
Proof.
  intros Hinv H. destruct c; simpl in H.
  - by eapply inv_register.
  - by eapply inv_login.
  - by eapply inv_logout.
  - unfold dir in H. by invert_run H.
  - by eapply inv_create.
  - by eapply inv_delete.
  - unfold open in H. by invert_run H.
  - unfold close in H. by invert_run H.
  - unfold read in H. by invert_run H.
  - by eapply inv_write.
  - by eapply inv_cd.
  - by eapply inv_md.
  - by eapply inv_rd.
  - unfold_M_in H. destruct (display_disk_usage s) as [[u s1]|] eqn:E; [|done].
    simplify_eq. apply display_disk_usage_inv in E as [out ->]. by apply inv_set_stdout.
  - unfold_M_in H. destruct (show_fat_table s) as [[u s1]|] eqn:E; [|done].
    simplify_eq. apply show_fat_table_inv in E as [out ->]. by apply inv_set_stdout.
Qed.

Lemma reachable_inv s : reachable s -> inv s.
Proof.
  induction 1 as [|s c v s' _ IH H]; [apply inv_init|by eapply inv_step].
Qed.

(** ** The allocation table never holds a negative offset *)

Lemma follow_inv p : forall s u s',
  follow p s = Ok (u, s') -> exists d, s' = set_current_dir d s.
Proof.
  induction p as [|name p IH]; intros s u s' H; simpl in H.
  - unfold_M_in H. simplify_eq. exists (current_dir s'). by destruct s'.
  - invert_run H. apply IH in H as [d ->]. by exists d.
Qed.

Lemma update_current_dir_inv s u s' :
  _update_current_dir s = Ok (u, s') -> exists d, s' = set_current_dir d s.
Proof.
  unfold _update_current_dir. intros H. invert_run H.
  apply follow_inv in H as [d ->]. by exists d.
Qed.

Lemma fat_nonneg_same s s' :
  fat_table s' = fat_table s -> next_free_space s' = next_free_space s ->
  fat_nonneg s -> fat_nonneg s'.
Proof. unfold fat_nonneg. by intros -> ->. Qed.

Lemma fat_nonneg_set s s' f r :
  fat_nonneg s -> 0 <= fst r -> 0 <= snd r -> 0 <= next_free_space s' ->
  fat_table s' = set f r (fat_table s) -> fat_nonneg s'.
Proof.
  intros [Hn Hf] H1 H2 H3 Ht. split; [done|]. rewrite Ht. intros g r'.
  destruct (decide (f = g)) as [->|Hne].
  - rewrite get_set_eq. by intros [= <-].
  - rewrite get_set_ne by done. apply Hf.
Qed.

Lemma fat_nonneg_step s c v s' :
  fat_nonneg s -> run c s = Ok (v, s') -> fat_nonneg s'.
Proof.
  intros Hs H. pose proof Hs as [Hn Hf]. destruct c; simpl in H.
  - unfold register in H. by invert_run H.
  - unfold login in H. by invert_run H.
  - unfold logout in H. by invert_run H.
  - unfold dir in H. by invert_run H.
  - unfold create in H. invert_run H.
    by eapply (fat_nonneg_set s); [done| | | |reflexivity].
  - unfold delete in H. invert_run H.
    match goal with H : show_fat_table _ = _ |- _ =>
      apply show_fat_table_inv in H as [out ->] end.
    match goal with H : get _ (fat_table s) = Some _ |- _ =>
      apply Hf in H as [? ?] end.
    split; simpl; [done|]. intros g r Hg. apply get_del_Some in Hg. eauto.
  - unfold open in H. by invert_run H.
  - unfold close in H. by invert_run H.
  - unfold read in H. by invert_run H.
  - unfold write in H. invert_run H.
    match goal with H : get _ (fat_table s) = Some _ |- _ =>
      apply Hf in H as [? ?] end.
    pose proof (len_nonneg content). pose proof (len_nonneg (disk_space s)).
    eapply (fat_nonneg_set s); [done| | | |reflexivity]; simpl in *; lia.
  - unfold cd in H. invert_run H;
      match goal with H : _update_current_dir _ = _ |- _ =>
        apply update_current_dir_inv in H as [d ->] end; done.
  - unfold md in H. by invert_run H.
  - unfold rd in H. by invert_run H.
  - unfold_M_in H. destruct (display_disk_usage s) as [[u s1]|] eqn:E; [|done].
    simplify_eq. by apply display_disk_usage_inv in E as [out ->].
  - unfold_M_in H. destruct (show_fat_table s) as [[u s1]|] eqn:E; [|done].
    simplify_eq. by apply show_fat_table_inv in E as [out ->].
Qed.


(** ** What the methods do *)

Lemma create_ok s f d ch :
  current_dir s = Some d -> heap s !! d = Some (Dir ch) -> get f ch = None ->
  create f s =
    Ok (VStr (lit "File '" ++ f ++ lit "' created."),
        set_fat_table (set f (next_free_space s, next_free_space s) (fat_table s))
          (set_heap (<[d := Dir (set f (length (heap s)) ch)]> (heap s ++ [File []])) s)).
Proof.
  intros Hd Hch Hf. unfold create. unfold_M. rewrite Hd, Hch.
  apply mem_false in Hf. by rewrite Hf.
Qed.

Lemma open_ok s f d ch l :
  current_dir s = Some d -> heap s !! d = Some (Dir ch) -> get f ch = Some l ->
  get f (open_files s) = None ->
  open f s =
    Ok (VStr (lit "File '" ++ f ++ lit "' opened."),
        set_open_files (set f l (open_files s)) s).
Proof.
  intros Hd Hch Hf Ho. unfold open. unfold_M. rewrite Hd, Hch, Hf.
  apply mem_false in Ho. by rewrite Ho.
Qed.

Lemma write_ok s f content l c0 file_start file_end data :
  get f (open_files s) = Some l ->
  heap s !! l = Some (File c0) ->
  get f (fat_table s) = Some (file_start, file_end) ->
  encode (slice_to content
            (Z.min (file_end + len content) (len (disk_space s)) - file_start))
    = Some data ->
  write f content s =
    Ok (VStr (lit "Content written to file."),
        set_next_free_space (Z.min (file_end + len content) (len (disk_space s)))
          (set_fat_table
             (set f (file_start, Z.min (file_end + len content) (len (disk_space s)))
                (fat_table s))
             (set_heap (<[l := File (c0 ++ content)]> (heap s))
                (set_disk_space
                   (slice_assign (disk_space s) file_start
                      (Z.min (file_end + len content) (len (disk_space s))) data)
                   s)))).
Proof.
  intros Ho Hl Hf He. unfold write. unfold_M.
  rewrite Ho, Hf, He. simpl. by rewrite Hl.
Qed.

Lemma read_ok s f l c :
  get f (open_files s) = Some l -> heap s !! l = Some (File c) ->
  read f s = Ok (VStr c, s).
Proof. intros Ho Hl. unfold read. unfold_M. by rewrite Ho, Hl. Qed.

Lemma close_ok s f l :
  get f (open_files s) = Some l ->
  close f s = Ok (VStr (lit "File '" ++ f ++ lit "' closed."),
                  set_open_files (del f (open_files s)) s).
Proof.
  intros Ho. unfold close. unfold_M.
  assert (mem f (open_files s) = true) as -> by (apply mem_true; eauto). done.
Qed.

(** C1, as amended.  In a state with a working directory, for a name [f]
    that is neither in that directory nor in the open-file table and a text
    that can be encoded and is no longer than the space after the cursor,
    [create(f); open(f); write(f, text)] returns and [read(f)] then gives
    back exactly [text]. *)
Theorem round_trip s f text d ch :
  current_dir s = Some d -> heap s !! d = Some (Dir ch) ->
  get f ch = None -> get f (open_files s) = None ->
  is_Some (encode text) ->
  len text <= len (disk_space s) - next_free_space s ->
  exists s', session [Create f; Open f; Write f text] s = Ok s'
             /\ read f s' = Ok (VStr text, s').
Proof.
  intros Hd Hch Hf Ho [data He] Hlen.
  pose proof (lookup_lt_Some _ _ _ Hch) as Hlt.
  simpl. rewrite (create_ok _ _ _ _ Hd Hch Hf).
  erewrite open_ok; simpl; [|done| |apply get_set_eq|done]; cycle 1.
  { apply list_lookup_insert_eq. rewrite length_app. lia. }
  pose proof (len_nonneg text).
  assert (Z.min (next_free_space s + len text) (len (disk_space s)) - next_free_space s
          = len text) as Hk by lia.
  erewrite write_ok; simpl; [| apply get_set_eq | | apply get_set_eq | ]; cycle 1.
  { rewrite list_lookup_insert_ne by lia. rewrite lookup_app_r by lia.
    by rewrite Nat.sub_diag. }
  { rewrite Hk, slice_to_all. exact He. }
  eexists. split; [done|]. apply (read_ok _ _ (length (heap s))); simpl.
  - apply get_set_eq.
  - rewrite list_lookup_insert_eq; [done|]. rewrite length_insert, length_app. simpl. lia.
Qed.


(** C10.  When [delete(f)] returns for a file of the working directory that
    is open, the open-file table is unchanged, [read(f)] still returns the
    content and [close(f)] succeeds. *)
Theorem delete_keeps_open_file s f d ch l c v s' :
  current_dir s = Some d -> heap s !! d = Some (Dir ch) -> mem f ch = true ->
  get f (open_files s) = Some l -> heap s !! l = Some (File c) ->
  delete f s = Ok (v, s') ->
  v = VStr (lit "File '" ++ f ++ lit "' deleted.")
  /\ open_files s' = open_files s
  /\ read f s' = Ok (VStr c, s')
  /\ close f s' = Ok (VStr (lit "File '" ++ f ++ lit "' closed."),
                      set_open_files (del f (open_files s')) s').
Proof.
  intros Hd Hch Hf Ho Hl H. unfold delete in H. unfold_M_in H.
  rewrite Hd, Hch, Hf in H. invert_run H.
  match goal with H : show_fat_table _ = _ |- _ =>
    apply show_fat_table_inv in H as [out ->] end.
  split; [done|]. split; [done|]. split.
  - apply (read_ok _ _ l); simpl; [done|].
    rewrite list_lookup_insert_ne; [done|]. intros ->. congruence.
  - by apply (close_ok _ _ l).
Qed.


(** C6.  In a reachable state, [cd("..")] with an empty path answers that
    the root is reached and changes nothing; with a path that is not empty
    it removes the last name and the working directory becomes what the
    walk from the root of the current user along the remaining path
    reaches. *)
Theorem cd_parent s :
  reachable s ->
  (path s = [] ->
   cd (lit "..") s = Ok (VStr (lit "Already at the root directory."), s))
  /\ (path s <> [] ->
      exists u a d,
        current_user s = Some u /\ get u (root s) = Some a
        /\ walk (heap s) (FAT a) (removelast (path s)) = Some d
        /\ cd (lit "..") s =
             Ok (VStr (lit "Returned to the parent directory."),
                 set_current_dir (Some d) (set_path (removelast (path s)) s))).
Proof.
  intros Hs. split.
  - intros Hp. unfold cd. rewrite decide_True by done. unfold_M. by rewrite Hp.
  - intros Hp. destruct (cd_parent_ok s (reachable_inv s Hs) Hp)
      as (u & a & d & ch & Hu & Ha & Hw & _ & Hcd).
    by exists u, a, d.
Qed.

Lemma reachable_fat_nonneg s : reachable s -> fat_nonneg s.
Proof.
  induction 1 as [|s c v s' _ IH H]; [|by eapply fat_nonneg_step].
  split; [done|]. by intros f r H.
Qed.

(** C3, as amended.  In every reachable state the start and the end of
    every entry of the allocation table are non-negative. *)
Theorem fat_offsets_nonneg s f file_start file_end :
  reachable s -> get f (fat_table s) = Some (file_start, file_end) ->
  0 <= file_start /\ 0 <= file_end.
Proof.
  intros Hs Hf. destruct (reachable_fat_nonneg s Hs) as [_ H]. apply (H f _ Hf).
Qed.

Lemma session_reachable cs : forall s s',
  reachable s -> session cs s = Ok s' -> reachable s'.
Proof.
  induction cs as [|c cs IH]; intros s s' Hs H; simpl in H; [by simplify_eq|].
  destruct (run c s) as [[v s1]|] eqn:E; [|done].
  eapply IH; [|done]. by eapply reachable_step.
Qed.

Lemma reachable_state_after cs : reachable (state_after cs).
Proof.
  unfold state_after. destruct (session cs init) as [s|] eqn:E.
  - eapply session_reachable; [apply reachable_init|done].
  - apply reachable_init.
Qed.

(** ** The program on concrete sessions *)

Import Sample.

(** C1, counterexample.  [f] is opened, written and deleted; [delete] leaves
    it in the open-file table.  The name is then free in the directory and
    the disk has room, yet after [create(f); open(f); write(f, "new")] the
    call [read(f)] returns ["oldnew"]: [open] is refused and the write goes
    to the node that is still open. *)
Lemma round_trip_stale_open_file :
  let s := state_after stale in
  current_dir s = Some 0%nat /\ heap s !! 0%nat = Some (Dir [])
  /\ len (lit "new") <= len (disk_space s) - next_free_space s
  /\ returns [Create f; Open f; Write f (lit "new"); Read f] s =
       Ok [VStr (lit "File 'f' created.");
           VStr (lit "File not found or already opened.");
           VStr (lit "Content written to file.");
           VStr (lit "oldnew")].
Proof. intros; repeat apply conj; by vm_compute. Qed.

(** C1: the round trip just after logging in. *)
Lemma round_trip_witness :
  let s := state_after logged_in in
  exists s', session [Create f; Open f; Write f (lit "hello")] s = Ok s'
             /\ read f s' = Ok (VStr (lit "hello"), s').
Proof.
  apply (round_trip (state_after logged_in) f (lit "hello") 0%nat []);
    [by vm_compute..|by eexists|by vm_compute].
Defined.

(** C2.  [del d] on a directory [d] removes the entry and then raises
    [KeyError] on [self.fat_table[filename]]; so does [del f] on a file whose
    allocation record was removed by deleting a file of the same name in
    another directory.  The dispatcher does not catch it. *)
Theorem delete_raises_on_directory :
  responses ascii_lower [lit "register u p"; lit "login u p"; lit "md d"] init
    = Ok [VStr (lit "User 'u' registered successfully.");
          VStr (lit "User 'u' logged in successfully.");
          VStr (lit "Directory 'd' created.")]
  /\ responses ascii_lower
       [lit "register u p"; lit "login u p"; lit "md d"; lit "del d"] init
     = Raise KeyError
  /\ responses ascii_lower
       [lit "register u p"; lit "login u p"; lit "create f"; lit "md d";
        lit "cd d"; lit "create f"; lit "del f"; lit "cd .."] init
     = Ok [VStr (lit "User 'u' registered successfully.");
           VStr (lit "User 'u' logged in successfully.");
           VStr (lit "File 'f' created.");
           VStr (lit "Directory 'd' created.");
           VStr (lit "Changed directory to 'd'.");
           VStr (lit "File 'f' created.");
           VStr (lit "File 'f' deleted.");
           VStr (lit "Returned to the parent directory.")]
  /\ responses ascii_lower
       [lit "register u p"; lit "login u p"; lit "create f"; lit "md d";
        lit "cd d"; lit "create f"; lit "del f"; lit "cd .."; lit "del f"] init
     = Raise KeyError.
Proof. intros; repeat apply conj; by vm_compute. Qed.

(** C3, counterexample.  After [delete(a)] the cursor is back at the start
    of [a]; the next file [c] is allocated there and grows into the bytes
    of [b], which is still live: byte 5 belongs to both. *)
Lemma fat_ranges_overlap_after_delete :
  let s := state_after reuse in
  fat_table s = [(b, (5, 10)); (c, (0, 8))] /\ ~ fat_ranges_ok s.
Proof.
  intros s. assert (fat_table s = [(b, (5, 10)); (c, (0, 8))]) as E by by vm_compute.
  split; [exact E|]. intros [_ H].
  apply (H b c (5, 10) (0, 8) 5).
  - by vm_compute.
  - rewrite E. by vm_compute.
  - rewrite E. by vm_compute.
  - unfold in_range; simpl; lia.
  - unfold in_range; simpl; lia.
Qed.

(** C3: the entry of [b] after the session above. *)
Lemma fat_offsets_nonneg_witness :
  get b (fat_table (state_after reuse)) = Some (5, 10) /\ 0 <= 5 /\ 0 <= 10.
Proof.
  assert (get b (fat_table (state_after reuse)) = Some (5, 10)) as E by by vm_compute.
  split; [exact E|].
  exact (fat_offsets_nonneg (state_after reuse) b 5 10 (reachable_state_after reuse) E).
Defined.

(** C4.  Writing the one-character text [é] to an empty file puts its two
    bytes on the disk, which grows by one byte, and records the range
    [(0, 1)] and the cursor [1]: the end is computed from [len(content)],
    the number of characters, not from the number of bytes written. *)
Theorem write_counts_characters_not_bytes :
  let s := state_after accent in
  encode [233] = Some [195; 169]
  /\ fat_table s = [(f, (0, 1))]
  /\ next_free_space s = 1
  /\ len (disk_space s) = DISK_SIZE + 1
  /\ slice (disk_space s) 0 2 = [195; 169].
Proof. intros; repeat apply conj; by vm_compute. Qed.

(** C5.  A second write to [a] replaces 600001 bytes by one and shrinks the
    disk to 448576 bytes; the write to [b], allocated at 600000, then
    records [(600000, 448576)].  [b] is in the working directory and has
    this record, and [delete(b)] raises [ValueError] on
    [bytearray(file_end - file_start)]. *)
Theorem delete_raises_on_inverted_range :
  let s := state_after shrink in
  fat_table s = [(a, (0, 600001)); (b, (600000, 448576))]
  /\ len (disk_space s) = 448576
  /\ returns [DirList] s = Ok [VList [a; b]]
  /\ session (shrink ++ [Delete b]) init = Raise ValueError.
Proof. intros; repeat apply conj; by vm_compute. Qed.

Lemma encode_ascii s : Forall (fun c => c < 128) s -> encode s = Some s.
Proof.
  induction 1 as [|c s Hc _ IH]; simpl; [done|].
  unfold encode_char. destruct (Z.ltb_spec c 128); [|lia]. by rewrite IH.
Qed.

(** C6: back from a sub-directory. *)
Lemma cd_parent_witness :
  let s := state_after (logged_in ++ [Md d; Cd d]) in
  exists u a d0,
    current_user s = Some u /\ get u (root s) = Some a
    /\ walk (heap s) (FAT a) (removelast (path s)) = Some d0
    /\ cd (lit "..") s =
         Ok (VStr (lit "Returned to the parent directory."),
             set_current_dir (Some d0) (set_path (removelast (path s)) s)).
Proof.
  intros s. apply (proj2 (cd_parent s (reachable_state_after _))). by vm_compute.
Defined.

(** C7.  [dir extra] lists the directory and [logout now please] logs the
    user out: the branches of [dir] and [logout] do not test the number of
    tokens, the answer is not the one for an invalid command. *)
Theorem dir_and_logout_ignore_extra_tokens :
  responses ascii_lower
    [lit "register u p"; lit "login u p"; lit "create f";
     lit "dir extra"; lit "logout now please"] init
  = Ok [VStr (lit "User 'u' registered successfully.");
        VStr (lit "User 'u' logged in successfully.");
        VStr (lit "File 'f' created.");
        VList [lit "f"];
        VStr (lit "User 'u' logged out successfully.")].
Proof. by vm_compute. Qed.



(** C10: a file deleted while it is open. *)
Lemma delete_keeps_open_file_witness :
  let s := state_after (logged_in ++ [Create f; Open f; Write f (lit "hello")]) in
  match delete f s with
  | Ok (v, s') =>
      v = VStr (lit "File 'f' deleted.")
      /\ open_files s' = open_files s
      /\ read f s' = Ok (VStr (lit "hello"), s')
      /\ close f s' = Ok (VStr (lit "File 'f' closed."),
                          set_open_files (del f (open_files s')) s')
  | Raise _ => False
  end.
Proof.
  intros s.
  assert (match delete f s with Ok _ => True | Raise _ => False end) as Hok
    by by vm_compute.
  destruct (delete f s) as [[v s']|e] eqn:E; [|exact Hok].
  apply (delete_keeps_open_file s f 0%nat [(f, 1%nat)] 1%nat (lit "hello") v s');
    [by vm_compute..|exact E].
Defined.

(** ** More of what the methods do *)

Section MoreDictFacts.
Context {V : Type}.
Implicit Types (k : str) (v : V) (d : dict V).

Lemma keys_set_new k v d : get k d = None -> keys (set k v d) = keys d ++ [k].
Proof.
  induction d as [|[k' v'] d IH]; simpl; [done|].
  case_decide; [done|]. intros Hg. simpl. by rewrite <- IH.
Qed.

Lemma del_absent k d : get k d = None -> del k d = d.
Proof.
  induction d as [|[k' v'] d IH]; simpl; [done|].
  case_decide; [done|]. intros Hg. by rewrite IH.
Qed.

Lemma del_set_new k v d : get k d = None -> del k (set k v d) = d.
Proof.
  induction d as [|[k' v'] d IH]; simpl.
  - by rewrite decide_True.
  - case_decide; [done|]. intros Hg. simpl. rewrite decide_False by done.
    by rewrite IH.
Qed.

Lemma keys_del k d : k ∉ keys (del k d).
Proof.
  induction d as [|[k' v'] d IH]; simpl; [apply not_elem_of_nil|].
  case_decide; [done|]. simpl. rewrite not_elem_of_cons. done.
Qed.



End MoreDictFacts.

(** X9.  Opening a file of the working directory that is not open and then
    closing it leads back to the very same state. *)
Theorem open_then_close s f d ch l :
  current_dir s = Some d -> heap s !! d = Some (Dir ch) -> get f ch = Some l ->
  get f (open_files s) = None ->
  exists s1,
    open f s = Ok (VStr (lit "File '" ++ f ++ lit "' opened."), s1)
    /\ close f s1 = Ok (VStr (lit "File '" ++ f ++ lit "' closed."), s).
Proof.
  intros Hd Hch Hf Ho. eexists. split; [by apply (open_ok _ _ d ch l)|].
  rewrite (close_ok _ _ l) by apply get_set_eq. simpl.
  rewrite del_set_new by done. by destruct s.
Qed.

Lemma dir_ok s d ch :
  current_dir s = Some d -> heap s !! d = Some (Dir ch) ->
  dir s = Ok (VList (keys ch), s).
Proof. intros Hd Hch. unfold dir. unfold_M. by rewrite Hd, Hch. Qed.

(** X6.  Creating a file under a new name puts the name at the end of the
    listing of the working directory and gives the file the empty range at
    the cursor; the cursor and the disk do not change. *)
Theorem create_appends_to_listing s f d ch :
  current_dir s = Some d -> heap s !! d = Some (Dir ch) -> get f ch = None ->
  dir s = Ok (VList (keys ch), s)
  /\ exists s',
       create f s = Ok (VStr (lit "File '" ++ f ++ lit "' created."), s')
       /\ dir s' = Ok (VList (keys ch ++ [f]), s')
       /\ next_free_space s' = next_free_space s
       /\ disk_space s' = disk_space s
       /\ get f (fat_table s') = Some (next_free_space s, next_free_space s).
Proof.
  intros Hd Hch Hf. pose proof (lookup_lt_Some _ _ _ Hch) as Hlt. split.
  { by apply dir_ok with d. }
  eexists. split; [by apply create_ok|]. simpl.
  split; [|split; [done|split; [done|apply get_set_eq]]].
  rewrite <- (keys_set_new f (length (heap s)) ch) by done.
  apply dir_ok with d; simpl; [done|].
  apply list_lookup_insert_eq. rewrite length_app. lia.
Qed.

(** X7.  Files and directories share one name space: a name in use in the
    working directory, by either, is refused by both [create] and [md],
    and nothing changes. *)
Theorem name_in_use_is_refused s name d ch l :
  current_dir s = Some d -> heap s !! d = Some (Dir ch) -> get name ch = Some l ->
  create name s = Ok (VStr (lit "File already exists."), s)
  /\ md name s = Ok (VStr (lit "Directory already exists."), s).
Proof.
  intros Hd Hch Hn. assert (mem name ch = true) as Hm by (apply mem_true; eauto).
  split.
  - unfold create. unfold_M. by rewrite Hd, Hch, Hm.
  - unfold md. unfold_M. by rewrite Hd, Hch, Hm.
Qed.

(** X2.  No call removes or changes an account: a user that is registered
    stays registered with the same password and the same root. *)
Theorem accounts_persist s c v s' u a :
  get u (root s) = Some a -> run c s = Ok (v, s') -> get u (root s') = Some a.
Proof.
  intros Ha H. destruct c; simpl in H.
  - unfold register in H. invert_run H; try done.
    rewrite get_set_ne; [done|]. intros ->.
    match goal with Hm : mem _ _ = false |- _ => apply mem_false in Hm end. congruence.
  - unfold login in H. by invert_run H.
  - unfold logout in H. by invert_run H.
  - unfold dir in H. by invert_run H.
  - unfold create in H. by invert_run H.
  - unfold delete in H. invert_run H; try done.
    match goal with H : show_fat_table _ = _ |- _ =>
      apply show_fat_table_inv in H as [out ->] end. done.
  - unfold open in H. by invert_run H.
  - unfold close in H. by invert_run H.
  - unfold read in H. by invert_run H.
  - unfold write in H. by invert_run H.
  - unfold cd in H. invert_run H;
      match goal with H : _update_current_dir _ = _ |- _ =>
        apply update_current_dir_inv in H as [d ->] end; done.
  - unfold md in H. by invert_run H.
  - unfold rd in H. by invert_run H.
  - unfold_M_in H. destruct (display_disk_usage s) as [[x s1]|] eqn:E; [|done].
    simplify_eq. by apply display_disk_usage_inv in E as [out ->].
  - unfold_M_in H. destruct (show_fat_table s) as [[x s1]|] eqn:E; [|done].
    simplify_eq. by apply show_fat_table_inv in E as [out ->].
Qed.

(** X3.  A name that is not registered can be registered, and logging in
    with the same password then succeeds: the user is current, the path is
    empty, the listing is empty, and the open files, the allocation table
    and the disk are as before. *)
Theorem register_then_login s u p :
  get u (root s) = None ->
  exists s1 s2,
    register u p s = Ok (VStr (lit "User '" ++ u ++ lit "' registered successfully."), s1)
    /\ login u p s1 = Ok (VStr (lit "User '" ++ u ++ lit "' logged in successfully."), s2)
    /\ current_user s2 = Some u /\ path s2 = []
    /\ dir s2 = Ok (VList [], s2)
    /\ open_files s2 = open_files s /\ fat_table s2 = fat_table s
    /\ disk_space s2 = disk_space s.
Proof.
  intros Hu. apply mem_false in Hu. eexists. eexists. split.
  { unfold register. unfold_M. by rewrite Hu. }
  split.
  { unfold login. unfold_M. simpl. rewrite get_set_eq. simpl.
    by rewrite decide_True. }
  simpl. split; [done|]. split; [done|]. split; [|done].
  apply (dir_ok _ (length (heap s)) []); simpl; [done|].
  rewrite lookup_app_r by lia. by rewrite Nat.sub_diag.
Qed.

(** X4.  Logging in as an unknown user, or with a password that is not the
    stored one, answers ["Login failed."] and changes nothing: whoever was
    logged in stays logged in. *)
Theorem login_failure_changes_nothing s u p :
  (forall a, get u (root s) = Some a -> password a <> p) ->
  login u p s = Ok (VStr (lit "Login failed."), s).
Proof.
  intros H. unfold login. unfold_M. destruct (get u (root s)) as [a|]; [|done].
  by rewrite decide_False by by apply H.
Qed.

Theorem register_does_not_replace s u p a :
  get u (root s) = Some a ->
  register u p s = Ok (VStr (lit "User already exists."), s).
Proof.
  intros Ha. unfold register. unfold_M.
  assert (mem u (root s) = true) as -> by (apply mem_true; eauto). done.
Qed.

(** X5.  [logout] clears the user, the working directory and the path but
    not the open-file table: a file that was open can still be read, while
    [dir] and [create] raise [TypeError] for want of a working directory. *)
Theorem logout_keeps_open_files s c u f l text :
  current_user s = Some (c :: u) ->
  get f (open_files s) = Some l -> heap s !! l = Some (File text) ->
  exists s',
    logout s = Ok (VStr (lit "User '" ++ (c :: u) ++ lit "' logged out successfully."), s')
    /\ current_user s' = None /\ current_dir s' = None /\ path s' = []
    /\ read f s' = Ok (VStr text, s')
    /\ dir s' = Raise TypeError
    /\ create f s' = Raise TypeError.
Proof.
  intros Hu Ho Hl. eexists. split.
  { unfold logout. unfold_M. by rewrite Hu. }
  simpl. split; [done|]. split; [done|]. split; [done|]. split.
  - by apply (read_ok _ _ l).
  - split; [unfold dir|unfold create]; by unfold_M.
Qed.

(** X8.  [rd] never touches the allocation table, the disk, the cursor or
    the open-file table, whatever the directory contains; when it removes
    the directory, the name is gone from the listing. *)
Theorem rd_keeps_allocations s name v s' :
  rd name s = Ok (v, s') ->
  fat_table s' = fat_table s /\ disk_space s' = disk_space s
  /\ next_free_space s' = next_free_space s /\ open_files s' = open_files s
  /\ (v = VStr (lit "Directory '" ++ name ++ lit "' deleted.") ->
      exists names, dir s' = Ok (VList names, s') /\ name ∉ names).
Proof.
  intros H. unfold rd in H. invert_run H; repeat apply conj; try done.
  intros _. eexists. split.
  - eapply dir_ok; simpl; [done|]. apply list_lookup_insert_eq.
    by eapply lookup_lt_Some.
  - apply keys_del.
Qed.

(** X1.  In every reachable state with a working directory, a registered user
    is logged in and the working directory is the directory the path leads
    to from that user's root; without a working directory the path is
    empty. *)
Theorem working_directory_follows_path s :
  reachable s ->
  match current_dir s with
  | Some d =>
      exists u a ch,
        current_user s = Some u /\ get u (root s) = Some a
        /\ walk (heap s) (FAT a) (path s) = Some d
        /\ heap s !! d = Some (Dir ch)
  | None => path s = []
  end.
Proof. intros Hs. by destruct (reachable_inv s Hs) as (_ & _ & H). Qed.

Lemma cd_child_ok s name d0 ch c chc :
  inv s -> name <> lit ".." ->
  current_dir s = Some d0 -> heap s !! d0 = Some (Dir ch) ->
  get name ch = Some c -> heap s !! c = Some (Dir chc) ->
  cd name s =
    Ok (VStr (lit "Changed directory to '" ++ name ++ lit "'."),
        set_current_dir (Some c) (set_path (path s ++ [name]) s)).
Proof.
  intros (Hwf & Hroots & Hsess) Hne Hd Hch Hn Hc. unfold session_ok in Hsess.
  rewrite Hd in Hsess. destruct Hsess as (u & a & ch' & Hu & Ha & Hw & _).
  unfold cd. rewrite decide_False by done. unfold_M. rewrite Hd, Hch, Hn, Hc.
  rewrite (update_current_dir_walk _ a u) by done. simpl_fields.
  rewrite walk_snoc, Hw. simpl. by rewrite Hch, Hn.
Qed.

(** X10.  In a reachable state, [cd] into a sub-directory followed by
    [cd("..")] leads back to the very same state. *)
Theorem cd_child_then_parent s name d0 ch c chc :
  reachable s -> name <> lit ".." ->
  current_dir s = Some d0 -> heap s !! d0 = Some (Dir ch) ->
  get name ch = Some c -> heap s !! c = Some (Dir chc) ->
  exists s1,
    cd name s = Ok (VStr (lit "Changed directory to '" ++ name ++ lit "'."), s1)
    /\ current_dir s1 = Some c /\ path s1 = path s ++ [name]
    /\ cd (lit "..") s1 = Ok (VStr (lit "Returned to the parent directory."), s).
Proof.
  intros Hs Hne Hd Hch Hn Hc. pose proof (reachable_inv s Hs) as Hinv.
  pose proof (cd_child_ok s name d0 ch c chc Hinv Hne Hd Hch Hn Hc) as Hcd.
  eexists. split; [exact Hcd|]. split; [done|]. split; [done|].
  pose proof (inv_cd _ _ _ _ Hinv Hcd) as Hinv1.
  destruct (cd_parent_ok _ Hinv1) as (u & a & d & chd & Hu & Ha & Hw & Hdd & Hback).
  { simpl. by destruct (path s). }
  rewrite Hback. simpl_fields. rewrite removelast_last in *.
  destruct Hinv as (_ & _ & Hsess). unfold session_ok in Hsess. rewrite Hd in Hsess.
  destruct Hsess as (u' & a' & ch' & Hu' & Ha' & Hw' & _).
  assert (a = a') as -> by congruence. assert (d = d0) as -> by congruence.
  destruct s; simpl in *. by subst.
Qed.

(** X11.  A name that is missing from the working directory, or is a file,
    is refused by [cd] and by [rd], and nothing changes. *)
Theorem cd_refuses_files s name d0 ch :
  name <> lit ".." ->
  current_dir s = Some d0 -> heap s !! d0 = Some (Dir ch) ->
  (get name ch = None \/ exists l text, get name ch = Some l /\ heap s !! l = Some (File text)) ->
  cd name s = Ok (VStr (lit "Directory not found."), s)
  /\ rd name s = Ok (VStr (lit "Directory not found or is a file."), s).
Proof.
  intros Hne Hd Hch [Hn|(l & text & Hn & Hl)].
  - split; [unfold cd; rewrite decide_False by done|unfold rd];
      unfold_M; by rewrite Hd, Hch, Hn.
  - split; [unfold cd; rewrite decide_False by done|unfold rd];
      unfold_M; by rewrite Hd, Hch, Hn, Hl.
Qed.

Lemma split_from_tokens s : forall cur,
  Forall (fun c => isspace c = false) cur ->
  Forall (fun t => t <> [] /\ Forall (fun c => isspace c = false) t)
         (split_from cur s).
Proof.
  induction s as [|c s IH]; intros cur Hcur; simpl.
  - destruct cur as [|x cur]; [done|]. constructor; [|done]. split.
    + intros E. apply (f_equal length) in E. rewrite length_rev in E. done.
    + by apply Forall_rev.
  - destruct (isspace c) eqn:Ec.
    + destruct cur as [|x cur]; [by apply IH|]. constructor; [|by apply IH].
      split.
      * intros E. apply (f_equal length) in E. rewrite length_rev in E. done.
      * by apply Forall_rev.
    + apply IH. by constructor.
Qed.

(** X12.  The tokens of a command line are never empty and contain no
    white space. *)
Theorem split_tokens line :
  Forall (fun t => t <> [] /\ Forall (fun c => isspace c = false) t) (split line).
Proof. by apply split_from_tokens. Qed.

Lemma split_blank line : Forall (fun c => isspace c = true) line -> split line = [].
Proof.
  unfold split. induction 1 as [|c s Hc _ IH]; simpl; [done|]. by rewrite Hc.
Qed.

(** X13.  A line of white space only, the empty line included, is answered
    ["No command entered."] and changes nothing. *)
Theorem blank_line_is_no_command (lower : str -> str) line s :
  Forall (fun c => isspace c = true) line ->
  process_command lower line s = Ok (VStr (lit "No command entered."), s).
Proof. intros H. unfold process_command. by rewrite (split_blank _ H). Qed.

(** X14.  A line whose first token, lower-cased, is none of the fifteen
    command words is answered as an invalid command, however many tokens
    follow, and changes nothing. *)
Theorem unknown_command_is_invalid (lower : str -> str) line w rest s :
  split line = w :: rest ->
  Forall (fun name => lower w <> lit name) command_names ->
  process_command lower line s =
    Ok (VStr (lit "Invalid command or incorrect number of arguments."), s).
Proof.
  intros Hsplit Hw. unfold process_command. rewrite Hsplit.
  unfold command_names in Hw. rewrite !Forall_cons in Hw. unfold eq_lit.
  repeat match goal with
         | H : _ /\ _ |- _ => destruct H as [? H]
         end.
  rewrite !bool_decide_eq_false_2 by done. done.
Qed.

Lemma process_command_run (lower : str -> str) line s v s' :
  process_command lower line s = Ok (v, s') ->
  s' = s \/ exists c, run c s = Ok (v, s').
Proof.
  unfold process_command. intros H.
  destruct (split line) as [|arg0 args] eqn:Hs; [left; by unfold_M_in H; simplify_eq|].
  repeat match type of H with
         | (if ?b then _ else _) _ = _ => destruct b
         end;
  first [ left; by unfold_M_in H; simplify_eq
        | right;
          first [ by exists DiskUsage | by exists ShowFat
                | by eexists (Register _ _) | by eexists (Login _ _)
                | by exists Logout | by exists DirList
                | by eexists (Create _) | by eexists (Delete _)
                | by eexists (Open _) | by eexists (Close _)
                | by eexists (Read _) | by eexists (Write _ _)
                | by eexists (Cd _) | by eexists (Md _) | by eexists (Rd _) ] ].
Qed.

(** X15.  Whatever line is typed, if the dispatcher returns, the state it
    leaves is reachable: the properties of reachable states hold of it. *)
Theorem process_command_reachable (lower : str -> str) line s v s' :
  reachable s -> process_command lower line s = Ok (v, s') -> reachable s'.
Proof.
  intros Hs H. destruct (process_command_run _ _ _ _ _ H) as [->|[c Hc]]; [done|].
  by eapply reachable_step.
Qed.

(** X16.  [write f t1 ... tn] writes the tokens after the file name joined
    by single spaces, however they were spaced on the line. *)
Theorem write_joins_tokens (lower : str -> str) line w f t ts s :
  split line = w :: f :: t :: ts -> lower w = lit "write" ->
  process_command lower line s = write f (join (lit " ") (t :: ts)) s.
Proof.
  intros Hs Hw. unfold process_command. rewrite Hs, Hw. by vm_compute.
Qed.









(** ** Slices of the disk *)
Lemma len_take_le {A} (l : list A) n : 0 <= n <= len l -> len (take (Z.to_nat n) l) = n.
Proof. unfold len. intros H. rewrite length_take. lia. Qed.

Lemma len_slice {A} (l : list A) i j :
  0 <= i -> i <= j -> j <= len l -> len (slice l i j) = j - i.
Proof.
  intros Hi Hij Hj. unfold slice, clamp.
  destruct (Z.ltb_spec i 0); [lia|]. destruct (Z.ltb_spec j 0); [lia|].
  rewrite !Z.min_l by lia. unfold len in *. rewrite length_take, length_drop. lia.
Qed.

Lemma slice_of_slice_assign {A} (l v : list A) i j :
  0 <= i -> i <= len l ->
  slice (slice_assign l i j v) i (i + len v) = v.
Proof.
  intros Hi Hil. unfold slice_assign.
  assert (clamp (len l) i = i) as ->.
  { unfold clamp. destruct (Z.ltb_spec i 0); lia. }
  set (b := Z.max i (clamp (len l) j)).
  set (l' := take (Z.to_nat i) l ++ v ++ drop (Z.to_nat b) l).
  assert (len l' = i + len v + len (drop (Z.to_nat b) l)) as Hlen.
  { unfold l'. rewrite !len_app, len_take_le by lia. lia. }
  pose proof (len_nonneg v). pose proof (len_nonneg (drop (Z.to_nat b) l)).
  unfold slice, clamp.
  destruct (Z.ltb_spec i 0); [lia|]. destruct (Z.ltb_spec (i + len v) 0); [lia|].
  rewrite !Z.min_l by lia. unfold l'.
  rewrite drop_app_length'; [|rewrite length_take; unfold len in *; lia].
  replace (Z.to_nat (i + len v - i)) with (length v) by (unfold len; lia).
  by rewrite take_app_length.
Qed.

Lemma len_slice_assign {A} (l v : list A) i j :
  0 <= i -> i <= j -> j <= len l ->
  len (slice_assign l i j v) = len l - (j - i) + len v.
Proof.
  intros Hi Hij Hj. unfold slice_assign, clamp.
  destruct (Z.ltb_spec i 0); [lia|]. destruct (Z.ltb_spec j 0); [lia|].
  rewrite !Z.min_l by lia. rewrite Z.max_r by lia.
  rewrite !len_app, len_take_le by lia. unfold len in *. rewrite length_drop. lia.
Qed.


(** X18.  For an open file with range [(start, end)], [0 <= start <= end],
    and an ASCII text that fits after [end], [write] puts the text on the
    disk at [start], not at [end]: the range becomes
    [(start, end + len text)], the bytes at [start] are the text, and the
    disk loses the [end - start] bytes the file had. *)
Theorem write_replaces_file_bytes s f text l c0 file_start file_end :
  get f (open_files s) = Some l -> heap s !! l = Some (File c0) ->
  get f (fat_table s) = Some (file_start, file_end) ->
  Forall (fun c => c < 128) text ->
  0 <= file_start -> file_start <= file_end ->
  file_end + len text <= len (disk_space s) ->
  exists s',
    write f text s = Ok (VStr (lit "Content written to file."), s')
    /\ get f (fat_table s') = Some (file_start, file_end + len text)
    /\ next_free_space s' = file_end + len text
    /\ slice (disk_space s') file_start (file_start + len text) = text
    /\ len (disk_space s') = len (disk_space s) - (file_end - file_start).
Proof.
  intros Ho Hl Hf Hascii H0 Hse Hfit. pose proof (len_nonneg text) as Ht.
  assert (Z.min (file_end + len text) (len (disk_space s)) = file_end + len text)
    as Hmin by lia.
  assert (slice_to text (file_end + len text - file_start) = text) as Hslice.
  { rewrite slice_to_take. unfold clamp.
    destruct (Z.ltb_spec (file_end + len text - file_start) 0); [lia|].
    rewrite Z.min_r by lia. unfold len. rewrite Nat2Z.id. apply firstn_all. }
  eexists. split.
  { apply (write_ok _ _ _ l c0 file_start file_end text); try done.
    rewrite Hmin, Hslice. by apply encode_ascii. }
  simpl. rewrite Hmin. split; [apply get_set_eq|]. split; [done|]. split.
  - apply slice_of_slice_assign; lia.
  - rewrite len_slice_assign by lia. lia.
Qed.


Lemma used_space_sum disk fat :
  Forall (fun entry => 0 <= fst (snd entry) /\ fst (snd entry) <= snd (snd entry)
                       /\ snd (snd entry) <= len disk) fat ->
  used_space disk fat = range_sum fat.
Proof.
  induction 1 as [|e fat (H0 & H1 & H2) _ IH]; simpl; [done|].
  by rewrite len_slice, IH by done.
Qed.

(** X20.  When every range of the allocation table lies within the disk,
    [display_disk_usage] prints the sum of [end - start] over the table and
    the length of the disk, and changes nothing else. *)
Theorem disk_usage_reports_range_sum s :
  Forall (fun entry => 0 <= fst (snd entry) /\ fst (snd entry) <= snd (snd entry)
                       /\ snd (snd entry) <= len (disk_space s)) (fat_table s) ->
  display_disk_usage s =
    Ok (tt, set_stdout
              (stdout s ++
               [lit "Disk usage: " ++ str_of_int (range_sum (fat_table s))
                ++ lit "/" ++ str_of_int (len (disk_space s)) ++ lit " bytes"]) s).
Proof.
  intros H. unfold display_disk_usage. unfold_M. unfold id.
  by rewrite (used_space_sum _ _ H).
Qed.

(** X21.  With nobody logged in, every operation on the working directory
    raises [TypeError] and [show_fat_table] raises [KeyError]; [read],
    [write] and [close] of a name that is not open, and [logout], answer
    with a message and change nothing. *)
Theorem operations_need_session s name text :
  current_dir s = None -> current_user s = None ->
  dir s = Raise TypeError /\ create name s = Raise TypeError
  /\ delete name s = Raise TypeError /\ open name s = Raise TypeError
  /\ md name s = Raise TypeError /\ rd name s = Raise TypeError
  /\ (name <> lit ".." -> cd name s = Raise TypeError)
  /\ show_fat_table s = Raise KeyError
  /\ (get name (open_files s) = None ->
      read name s = Ok (VStr (lit "File not opened."), s)
      /\ write name text s = Ok (VStr (lit "File not opened."), s)
      /\ close name s = Ok (VStr (lit "File not opened."), s))
  /\ logout s = Ok (VStr (lit "No user currently logged in."), s).
Proof.
  intros Hd Hu.
  repeat apply conj;
    try (unfold dir, create, delete, open, md, rd, show_fat_table; unfold_M;
         by rewrite ?Hd, ?Hu).
  - intros Hne. unfold cd. rewrite decide_False by done. unfold_M. by rewrite Hd.
  - intros Ho. assert (mem name (open_files s) = false) as Hm by by apply mem_false.
    repeat apply conj; unfold read, write, close; unfold_M; by rewrite ?Ho, ?Hm.
  - unfold logout. unfold_M. by rewrite Hu.
Qed.

(** ** Instances of the further properties *)

(** X9: an instance. *)
Lemma open_then_close_witness :
  let s := state_after (logged_in ++ [Create f]) in
  exists s1,
    open f s = Ok (VStr (lit "File '" ++ f ++ lit "' opened."), s1)
    /\ close f s1 = Ok (VStr (lit "File '" ++ f ++ lit "' closed."), s).
Proof.
  intros s. apply (open_then_close s f 0%nat [(f, 1%nat)] 1%nat); by vm_compute.
Defined.

(** X6: an instance. *)
Lemma create_appends_to_listing_witness :
  let s := state_after (logged_in ++ [Create a]) in
  dir s = Ok (VList (keys [(a, 1%nat)]), s)
  /\ exists s',
       create f s = Ok (VStr (lit "File '" ++ f ++ lit "' created."), s')
       /\ dir s' = Ok (VList (keys [(a, 1%nat)] ++ [f]), s')
       /\ next_free_space s' = next_free_space s
       /\ disk_space s' = disk_space s
       /\ get f (fat_table s') = Some (next_free_space s, next_free_space s).
Proof.
  intros s. apply (create_appends_to_listing s f 0%nat [(a, 1%nat)]); by vm_compute.
Defined.

(** X7: an instance. *)
Lemma name_in_use_is_refused_witness :
  let s := state_after (logged_in ++ [Md d]) in
  create d s = Ok (VStr (lit "File already exists."), s)
  /\ md d s = Ok (VStr (lit "Directory already exists."), s).
Proof.
  intros s. apply (name_in_use_is_refused s d 0%nat [(d, 1%nat)] 1%nat); by vm_compute.
Defined.

(** X2: an instance. *)
Lemma accounts_persist_witness :
  let s := state_after logged_in in
  match run (Register (lit "v") (lit "q")) s with
  | Ok (_, s') => get u (root s') = Some (mkAccount u p 0)
  | Raise _ => False
  end.
Proof.
  intros s.
  assert (match run (Register (lit "v") (lit "q")) s with
          | Ok _ => True | Raise _ => False end) as Hok by by vm_compute.
  destruct (run (Register (lit "v") (lit "q")) s) as [[v s']|e] eqn:E; [|exact Hok].
  apply (accounts_persist s (Register (lit "v") (lit "q")) v s' u (mkAccount u p 0));
    [by vm_compute|exact E].
Defined.

(** X3: an instance. *)
Lemma register_then_login_witness :
  exists s1 s2,
    register u p init = Ok (VStr (lit "User '" ++ u ++ lit "' registered successfully."), s1)
    /\ login u p s1 = Ok (VStr (lit "User '" ++ u ++ lit "' logged in successfully."), s2)
    /\ current_user s2 = Some u /\ path s2 = []
    /\ dir s2 = Ok (VList [], s2)
    /\ open_files s2 = open_files init /\ fat_table s2 = fat_table init
    /\ disk_space s2 = disk_space init.
Proof. apply (register_then_login init u p). by vm_compute. Defined.

(** X4: an instance. *)
Lemma login_failure_changes_nothing_witness :
  let s := state_after logged_in in
  login u (lit "wrong") s = Ok (VStr (lit "Login failed."), s).
Proof.
  intros s. apply (login_failure_changes_nothing s u (lit "wrong")).
  intros acct Ha. assert (get u (root s) = Some (mkAccount u p 0)) as E by by vm_compute.
  rewrite E in Ha. injection Ha as <-. by vm_compute.
Defined.

Lemma register_does_not_replace_witness :
  let s := state_after logged_in in
  register u (lit "other") s = Ok (VStr (lit "User already exists."), s).
Proof.
  intros s. apply (register_does_not_replace s u (lit "other") (mkAccount u p 0)).
  by vm_compute.
Defined.

(** X5: an instance. *)
Lemma logout_keeps_open_files_witness :
  let s := state_after hello_file in
  exists s',
    logout s = Ok (VStr (lit "User '" ++ (117 :: []) ++ lit "' logged out successfully."), s')
    /\ current_user s' = None /\ current_dir s' = None /\ path s' = []
    /\ read f s' = Ok (VStr (lit "hello"), s')
    /\ dir s' = Raise TypeError
    /\ create f s' = Raise TypeError.
Proof.
  intros s. apply (logout_keeps_open_files s 117 [] f 1%nat (lit "hello")); by vm_compute.
Defined.

(** X8: an instance. *)
Lemma rd_keeps_allocations_witness :
  let s := state_after (hello_file ++ [Md d]) in
  match rd d s with
  | Ok (v, s') =>
      fat_table s' = fat_table s /\ disk_space s' = disk_space s
      /\ next_free_space s' = next_free_space s /\ open_files s' = open_files s
      /\ (v = VStr (lit "Directory '" ++ d ++ lit "' deleted.") ->
          exists names, dir s' = Ok (VList names, s') /\ d ∉ names)
  | Raise _ => False
  end.
Proof.
  intros s.
  assert (match rd d s with Ok _ => True | Raise _ => False end) as Hok by by vm_compute.
  destruct (rd d s) as [[v s']|e] eqn:E; [|exact Hok].
  exact (rd_keeps_allocations s d v s' E).
Defined.

(** X1: an instance. *)
Lemma working_directory_follows_path_witness :
  let s := state_after (logged_in ++ [Md d; Cd d]) in
  match current_dir s with
  | Some d =>
      exists u a ch,
        current_user s = Some u /\ get u (root s) = Some a
        /\ walk (heap s) (FAT a) (path s) = Some d
        /\ heap s !! d = Some (Dir ch)
  | None => path s = []
  end.
Proof.
  intros s. exact (working_directory_follows_path s (reachable_state_after _)).
Defined.

(** X10: an instance. *)
Lemma cd_child_then_parent_witness :
  let s := state_after (logged_in ++ [Md d]) in
  exists s1,
    cd d s = Ok (VStr (lit "Changed directory to '" ++ d ++ lit "'."), s1)
    /\ current_dir s1 = Some 1%nat /\ path s1 = path s ++ [d]
    /\ cd (lit "..") s1 = Ok (VStr (lit "Returned to the parent directory."), s).
Proof.
  intros s.
  apply (cd_child_then_parent s d 0%nat [(d, 1%nat)] 1%nat []);
    [apply reachable_state_after|by vm_compute..].
Defined.

(** X11: an instance. *)
Lemma cd_refuses_files_witness :
  let s := state_after (logged_in ++ [Create f]) in
  cd f s = Ok (VStr (lit "Directory not found."), s)
  /\ rd f s = Ok (VStr (lit "Directory not found or is a file."), s).
Proof.
  intros s. apply (cd_refuses_files s f 0%nat [(f, 1%nat)]); [by vm_compute..|].
  right. exists 1%nat, []. split; by vm_compute.
Defined.

(** X13: an instance. *)
Lemma blank_line_is_no_command_witness :
  process_command ascii_lower (lit "   ") init
  = Ok (VStr (lit "No command entered."), init).
Proof.
  apply (blank_line_is_no_command ascii_lower (lit "   ") init).
  repeat (constructor; [reflexivity|]). constructor.
Defined.

(** X14: an instance. *)
Lemma unknown_command_is_invalid_witness :
  process_command ascii_lower (lit "format c") init
  = Ok (VStr (lit "Invalid command or incorrect number of arguments."), init).
Proof.
  apply (unknown_command_is_invalid ascii_lower (lit "format c") (lit "format") [lit "c"]);
    [by vm_compute|].
  unfold command_names. repeat (constructor; [by vm_compute|]). constructor.
Defined.

(** X15: an instance. *)
Lemma process_command_reachable_witness :
  let s := state_after logged_in in
  match process_command ascii_lower (lit "md d") s with
  | Ok (_, s') => reachable s'
  | Raise _ => False
  end.
Proof.
  intros s.
  assert (match process_command ascii_lower (lit "md d") s with
          | Ok _ => True | Raise _ => False end) as Hok by by vm_compute.
  destruct (process_command ascii_lower (lit "md d") s) as [[v s']|e] eqn:E; [|exact Hok].
  exact (process_command_reachable ascii_lower (lit "md d") s v s'
           (reachable_state_after _) E).
Defined.

(** X16: an instance. *)
Lemma write_joins_tokens_witness :
  let s := state_after (logged_in ++ [Create f; Open f]) in
  process_command ascii_lower (lit "WRITE f  hello   big world ") s
  = write f (join (lit " ") [lit "hello"; lit "big"; lit "world"]) s.
Proof.
  intros s.
  apply (write_joins_tokens ascii_lower (lit "WRITE f  hello   big world ")
           (lit "WRITE") f (lit "hello") [lit "big"; lit "world"] s); by vm_compute.
Defined.


(** X18: an instance. *)
Lemma write_replaces_file_bytes_witness :
  let s := state_after hello_file in
  exists s',
    write f (lit " world") s = Ok (VStr (lit "Content written to file."), s')
    /\ get f (fat_table s') = Some (0, 5 + len (lit " world"))
    /\ next_free_space s' = 5 + len (lit " world")
    /\ slice (disk_space s') 0 (0 + len (lit " world")) = lit " world"
    /\ len (disk_space s') = len (disk_space s) - (5 - 0).
Proof.
  intros s. apply (write_replaces_file_bytes s f (lit " world") 1%nat (lit "hello") 0 5);
    try by vm_compute.
  repeat (constructor; [by vm_compute|]). constructor.
Defined.


(** X20: an instance. *)
Lemma disk_usage_reports_range_sum_witness :
  let s := state_after hello_file in
  display_disk_usage s =
    Ok (tt, set_stdout
              (stdout s ++
               [lit "Disk usage: " ++ str_of_int (range_sum (fat_table s))
                ++ lit "/" ++ str_of_int (len (disk_space s)) ++ lit " bytes"]) s).
Proof.
  intros s. apply (disk_usage_reports_range_sum s).
  assert (fat_table s = [(f, (0, 5))]) as -> by by vm_compute.
  constructor; [|constructor]. by vm_compute.
Defined.

(** X21: an instance. *)
Lemma operations_need_session_witness :
  dir init = Raise TypeError /\ create f init = Raise TypeError
  /\ delete f init = Raise TypeError /\ open f init = Raise TypeError
  /\ md f init = Raise TypeError /\ rd f init = Raise TypeError
  /\ (f <> lit ".." -> cd f init = Raise TypeError)
  /\ show_fat_table init = Raise KeyError
  /\ (get f (open_files init) = None ->
      read f init = Ok (VStr (lit "File not opened."), init)
      /\ write f (lit "x") init = Ok (VStr (lit "File not opened."), init)
      /\ close f init = Ok (VStr (lit "File not opened."), init))
  /\ logout init = Ok (VStr (lit "No user currently logged in."), init).
Proof. apply (operations_need_session init f (lit "x")); reflexivity. Defined.
